(** * CapsNet notebook: capsule layer, margin loss, network and training script

    A shallow embedding of the notebook
    [deep-learning/CapsNET/PyTorch_Implementation/Straightforward CapsNET Implementation.ipynb].

    Two readings of the code are given.

    - The _value_ reading: tensors are nested lists of real numbers and every
      tensor operation is the mathematical function it computes.  Arithmetic
      is exact; a division whose divisor is zero has no value, and a tensor
      that would hold such an entry is [None].
    - The _size_ reading (module [Sz]): every tensor is replaced by its size
      and every operation by the size rule of the tensor library, including
      the errors it raises.  The control flow of the notebook depends on
      sizes only, so this reading decides which exception is raised where.

    The library calls follow the release the notebook was written for (its
    text dates it to November 2017): [F.softmax] without [dim] normalises a
    matrix along dimension 1 and a vector along dimension 0, and [MSELoss]
    compares two tensors holding the same number of elements entry by entry.

    Rounding and overflow of floating-point numbers are not modelled, and the
    value reading takes the sizes of its arguments to fit: a pairing of two
    lists stops at the shorter one where the library would raise, which is
    the business of the size reading. *)

From Stdlib Require Import String Reals Lra Lia ZArith Bool List SpecFloat.
Import ListNotations.

(** ** Python outcomes *)

Inductive exn : Type :=
| RuntimeError
| TypeError
| NameError
| UnboundLocalError
| ZeroDivisionError
| IndexError
| AttributeError.

Inductive result (A : Type) : Type :=
| Ok (a : A)
| Raise (e : exn).

Arguments Ok {A} a.
Arguments Raise {A} e.

Definition rbind {A B : Type} (m : result A) (f : A -> result B) : result B :=
  match m with
  | Ok a => f a
  | Raise e => Raise e
  end.

Definition obind {A B : Type} (m : option A) (f : A -> option B) : option B :=
  match m with
  | Some a => f a
  | None => None
  end.

Declare Scope undef_scope.
Delimit Scope undef_scope with undef.
Notation "x <- m ;; k" := (obind m (fun x => k))
  (at level 61, m at next level, right associativity) : undef_scope.

Declare Scope py_scope.
Delimit Scope py_scope with py.
Notation "x <- m ;; k" := (rbind m (fun x => k))
  (at level 61, m at next level, right associativity) : py_scope.
Notation "m ;; k" := (rbind m (fun _ => k))
  (at level 61, right associativity) : py_scope.

(** ** Tensors as nested lists *)

Abbreviation tensor1 := (list R).
Abbreviation tensor2 := (list (list R)).
Abbreviation tensor3 := (list (list (list R))).
Abbreviation tensor4 := (list (list (list (list R)))).

(** A list of results, undefined as soon as one of them is. *)
Fixpoint mapM {A B : Type} (f : A -> option B) (l : list A) : option (list B) :=
  match l with
  | [] => Some []
  | a :: l' =>
      match f a, mapM f l' with
      | Some b, Some bs => Some (b :: bs)
      | _, _ => None
      end
  end.

(** An operation entry by entry on two lists. *)
Definition map2 {A B C : Type} (f : A -> B -> C) (l1 : list A) (l2 : list B) : list C :=
  map (fun p => f (fst p) (snd p)) (combine l1 l2).

(** [range(n)] *)
Definition range (n : Z) : list Z := map Z.of_nat (seq 0 (Z.to_nat n)).

(** A list comprehension whose body may raise. *)
Fixpoint rmapM {A B : Type} (f : A -> result B) (l : list A) : result (list B) :=
  match l with
  | [] => Ok []
  | a :: l' =>
      match f a with
      | Raise e => Raise e
      | Ok b =>
          match rmapM f l' with
          | Raise e => Raise e
          | Ok bs => Ok (b :: bs)
          end
      end
  end.

(** ** The size reading

    A tensor is its size; an operation is the size rule of the library,
    raising where the library raises. *)

Module Sz.
Local Open Scope Z_scope.
Local Open Scope py_scope.

Abbreviation size := (list Z).

Definition numel (s : size) : Z := fold_right Z.mul 1 s.

Definition ndim (s : size) : Z := Z.of_nat (length s).

Fixpoint size_eqb (a b : size) : bool :=
  match a, b with
  | [], [] => true
  | x :: a', y :: b' => (x =? y) && size_eqb a' b'
  | _, _ => false
  end.

(** A dimension argument may count from the end. *)
Definition wrap_dim (s : size) (d : Z) : result nat :=
  if (- ndim s <=? d) && (d <? ndim s)
  then Ok (Z.to_nat (if d <? 0 then d + ndim s else d))
  else Raise RuntimeError.

Definition set_nth (i : nat) (v : Z) (s : size) : size :=
  firstn i s ++ v :: skipn (S i) s.

(** [t.size(d)] *)
Definition size_at (s : size) (d : Z) : result Z :=
  i <- wrap_dim s d ;; Ok (nth i s 0).

(** [t.transpose(d0, d1)] *)
Definition transpose (s : size) (d0 d1 : Z) : result size :=
  i <- wrap_dim s d0 ;;
  j <- wrap_dim s d1 ;;
  Ok (set_nth i (nth j s 0) (set_nth j (nth i s 0) s)).

(** [t.sum(dim=d, keepdim=k)] *)
Definition sum (s : size) (d : Z) (keepdim : bool) : result size :=
  i <- wrap_dim s d ;;
  Ok (if keepdim then set_nth i 1 s else firstn i s ++ skipn (S i) s).

(** [t.max(d, keepdim=k)]: values and indices have the same size. *)
Definition max (s : size) (d : Z) (keepdim : bool) : result (size * size) :=
  r <- sum s d keepdim ;; Ok (r, r).

(** Broadcasting of two sizes, both listed from the last axis. *)
Fixpoint broadcast_rev (a b : size) : result size :=
  match a, b with
  | [], _ => Ok b
  | _, [] => Ok a
  | x :: a', y :: b' =>
      r <- broadcast_rev a' b' ;;
      if x =? y then Ok (x :: r)
      else if x =? 1 then Ok (y :: r)
      else if y =? 1 then Ok (x :: r)
      else Raise RuntimeError
  end.

(** The size of [a * b], [a + b], [a / b], [a - b]. *)
Definition broadcast (a b : size) : result size :=
  r <- broadcast_rev (rev a) (rev b) ;; Ok (rev r).

(** [t.view(...)]; one of the sizes may be [-1]. *)
Definition view (s : size) (args : list Z) : result size :=
  let known := numel (filter (fun a => negb (a =? -1)) args) in
  match length (filter (fun a => a =? -1) args) with
  | O => if numel args =? numel s then Ok args else Raise RuntimeError
  | 1%nat =>
      if negb (known =? 0) && (numel s mod known =? 0)
      then Ok (map (fun a => if a =? -1 then numel s / known else a) args)
      else Raise RuntimeError
  | _ => Raise RuntimeError
  end.

(** [t.squeeze()] drops every axis of size one. *)
Definition squeeze (s : size) : size := filter (fun a => negb (a =? 1)) s.

(** [a @ b] for operands of at least two axes: the leading axes broadcast. *)
Definition matmul (a b : size) : result size :=
  match rev a, rev b with
  | m :: n :: abatch, p :: m' :: bbatch =>
      if m =? m'
      then batch <- broadcast_rev abatch bbatch ;; Ok (rev batch ++ [n; p])
      else Raise RuntimeError
  | _, _ => Raise RuntimeError
  end.

(** [x[None, :, :, None, :]] *)
Definition index_N_s_s_N_s (x : size) : result size :=
  match x with
  | a :: b :: c :: rest => Ok (1 :: a :: b :: 1 :: c :: rest)
  | _ => Raise IndexError
  end.

(** [w[:, None, :, :, :]] *)
Definition index_s_N_s_s_s (w : size) : result size :=
  match w with
  | a :: b :: c :: d :: rest => Ok (a :: 1 :: b :: c :: d :: rest)
  | _ => Raise IndexError
  end.

(** [y[:, :, None]] *)
Definition index_s_s_N (y : size) : result size :=
  match y with
  | a :: b :: rest => Ok (a :: b :: 1 :: rest)
  | _ => Raise IndexError
  end.

(** [torch.cat(l, dim=-1)] *)
Definition cat_last (l : list size) : result size :=
  match l with
  | [] => Raise RuntimeError
  | s :: rest =>
      match rev s with
      | [] => Raise RuntimeError
      | last :: front =>
          total <- fold_left
                     (fun acc t =>
                        a <- acc ;;
                        match rev t with
                        | lt :: ft => if size_eqb ft front then Ok (a + lt) else Raise RuntimeError
                        | [] => Raise RuntimeError
                        end)
                     rest (Ok last) ;;
          Ok (rev (total :: front))
      end
  end.

(** [src.index_select(dim=0, index=idx)] *)
Definition index_select0 (src idx : size) : result size :=
  match src, idx with
  | _ :: rest, [n] => Ok (n :: rest)
  | _, _ => Raise RuntimeError
  end.

(** [torch.eye(n)] *)
Definition eye (n : Z) : size := [n; n].

(** [F.softmax(t)] keeps the size. *)
Definition F_softmax (s : size) : result size := Ok s.

(** [nn.MSELoss(size_average=False)(input, target)]: one number,
    when both hold the same number of elements. *)
Definition mse_loss (input target : size) : result size :=
  if numel input =? numel target then Ok [1] else Raise RuntimeError.

(** *** [index_to_one_hot] *)
Definition index_to_one_hot (index_tensor : size) (num_classes : Z) : result size :=
  index_select0 (eye num_classes) index_tensor.

(** *** [squash_vector] *)
Definition squash_vector (tensor : size) (dim : Z) : result size :=
  squared_norm <- sum tensor dim true ;;
  one_plus <- broadcast [] squared_norm ;;
  scale <- broadcast squared_norm one_plus ;;
  scaled <- broadcast scale tensor ;;
  broadcast scaled squared_norm.

(** *** [softmax] *)
Definition softmax (input : size) (dim : Z) : result size :=
  transposed_input <- transpose input dim (ndim input - 1) ;;
  last <- size_at transposed_input (-1) ;;
  flat <- view transposed_input [-1; last] ;;
  softmaxed_output <- F_softmax flat ;;
  back <- view softmaxed_output transposed_input ;;
  transpose back dim (ndim input - 1).

(** *** Library modules *)

Record Conv2d : Type := {
  in_channels : Z;
  out_channels : Z;
  kernel_size : Z;
  stride : Z
}.

(** Padding is zero and dilation one. *)
Definition Conv2d_forward (c : Conv2d) (x : size) : result size :=
  match x with
  | [b; ch; h; w] =>
      if (ch =? in_channels c) && (kernel_size c <=? h) && (kernel_size c <=? w)
      then Ok [b; out_channels c;
               (h - kernel_size c) / stride c + 1;
               (w - kernel_size c) / stride c + 1]
      else Raise RuntimeError
  | _ => Raise RuntimeError
  end.

Inductive Layer : Type :=
| Linear (in_features out_features : Z)
| ReLU
| Sigmoid.

Definition Layer_forward (m : Layer) (x : size) : result size :=
  match m with
  | Linear i o =>
      match rev x with
      | l :: front => if l =? i then Ok (rev (o :: front)) else Raise RuntimeError
      | [] => Raise RuntimeError
      end
  | ReLU => Ok x
  | Sigmoid => Ok x
  end.

(** [nn.Sequential] *)
Definition Sequential_forward (ms : list Layer) (x : size) : result size :=
  fold_left (fun acc m => a <- acc ;; Layer_forward m a) ms (Ok x).

(** *** [CapsuleLayer] *)

Record CapsuleLayer : Type := {
  num_routes : Z;
  num_iterations : Z;
  num_capsules : Z;
  route_weights : option size;
  capsules : option (list Conv2d)
}.

Definition CapsuleLayer_init (num_capsules num_routes in_channels out_channels : Z)
    (kernel_size stride : option Z) (num_iterations : Z) : result CapsuleLayer :=
  if negb (num_routes =? -1) then
    Ok {| num_routes := num_routes;
          num_iterations := num_iterations;
          num_capsules := num_capsules;
          route_weights := Some [num_capsules; num_routes; in_channels; out_channels];
          capsules := None |}
  else
    match kernel_size, stride with
    | Some k, Some s =>
        Ok {| num_routes := num_routes;
              num_iterations := num_iterations;
              num_capsules := num_capsules;
              route_weights := None;
              capsules := Some (map (fun _ => {| in_channels := in_channels;
                                                  out_channels := out_channels;
                                                  kernel_size := k;
                                                  stride := s |})
                                    (range num_capsules)) |}
    | _, _ => Raise TypeError
    end.

(** One pass of the body of [for i in range(self.num_iterations)]; the
    variables it assigns are [logits] and [outputs]. *)
Definition routing_step (n : Z) (priors : size)
    (vars : result (size * option size)) (i : Z) : result (size * option size) :=
  v <- vars ;;
  let logits := fst v in
  probs <- softmax logits 2 ;;
  weighted <- broadcast probs priors ;;
  squashed <- squash_vector weighted (-1) ;;
  outputs <- sum squashed 2 true ;;
  if negb (i =? n - 1) then
    agreement <- broadcast priors outputs ;;
    delta_logits <- sum agreement (-1) true ;;
    logits' <- broadcast logits delta_logits ;;
    Ok (logits', Some outputs)
  else Ok (logits, Some outputs).

Definition CapsuleLayer_forward (self : CapsuleLayer) (x : size) : result size :=
  if negb (num_routes self =? -1) then
    match route_weights self with
    | None => Raise AttributeError
    | Some w =>
        xi <- index_N_s_s_N_s x ;;
        wi <- index_s_N_s_s_s w ;;
        priors <- matmul xi wi ;;
        let logits := priors in
        v <- fold_left (routing_step (num_iterations self) priors)
               (range (num_iterations self)) (Ok (logits, None)) ;;
        match snd v with
        | None => Raise UnboundLocalError
        | Some outputs => Ok outputs
        end
    end
  else
    match capsules self with
    | None => Raise AttributeError
    | Some cs =>
        outputs <- rmapM (fun capsule =>
                            c <- Conv2d_forward capsule x ;;
                            b <- size_at x 0 ;;
                            view c [b; -1; 1]) cs ;;
        outputs <- cat_last outputs ;;
        squash_vector outputs (-1)
    end.

(** *** [MarginLoss] *)
Definition MarginLoss_forward (images labels classes reconstructions : size) : result size :=
  left <- broadcast [] classes ;;
  right <- broadcast classes [] ;;
  a <- broadcast labels left ;;
  one_minus <- broadcast [] labels ;;
  half <- broadcast [] one_minus ;;
  b <- broadcast half right ;;
  margin_loss <- broadcast a b ;;
  let margin_loss : size := [1] in
  reconstruction_loss <- mse_loss reconstructions images ;;
  scaled <- broadcast [] reconstruction_loss ;;
  total <- broadcast margin_loss scaled ;;
  _ <- size_at images 0 ;;
  Ok total.

(** *** [CapsuleNet] *)

Record CapsuleNet : Type := {
  conv1 : Conv2d;
  primary_capsules : CapsuleLayer;
  digit_capsules : CapsuleLayer;
  decoder : list Layer
}.

Definition CapsuleNet_init : result CapsuleNet :=
  primary <- CapsuleLayer_init 8 (-1) 256 32 (Some 9) (Some 2) 3 ;;
  digit <- CapsuleLayer_init 10 (32 * 6 * 6) 8 16 None None 3 ;;
  Ok {| conv1 := {| in_channels := 1; out_channels := 256; kernel_size := 9; stride := 1 |};
        primary_capsules := primary;
        digit_capsules := digit;
        decoder := [Linear (16 * 10) 512; ReLU; Linear 512 1024; ReLU;
                    Linear 1024 784; Sigmoid] |}.

Definition CapsuleNet_forward (self : CapsuleNet) (x : size) (y : option size)
  : result (size * size) :=
  x <- Conv2d_forward (conv1 self) x ;;
  x <- CapsuleLayer_forward (primary_capsules self) x ;;
  d <- CapsuleLayer_forward (digit_capsules self) x ;;
  x <- transpose (squeeze d) 0 1 ;;
  classes <- sum x (-1) false ;;
  classes <- F_softmax classes ;;
  y <- match y with
       | None =>
           m <- max classes 1 false ;;
           index_select0 (eye 10) (snd m)
       | Some y => Ok y
       end ;;
  yi <- index_s_s_N y ;;
  masked <- broadcast x yi ;;
  b <- size_at x 0 ;;
  flat <- view masked [b; -1] ;;
  reconstructions <- Sequential_forward (decoder self) flat ;;
  Ok (classes, reconstructions).

(** [model = CapsuleNet()] followed by [model(x, y)]. *)
Definition model (x : size) (y : option size) : result (size * size) :=
  self <- CapsuleNet_init ;; CapsuleNet_forward self x y.

End Sz.

(** ** The value reading *)

Section Values.
Local Open Scope R_scope.

(** [t.sum()] over one axis. *)
Definition rsum (l : list R) : R := fold_right Rplus 0 l.

(** A quotient has a value only when the divisor is not zero. *)
Definition checked_div (a b : R) : option R :=
  if Req_dec_T b 0 then None else Some (a / b).

(** [m.transpose(0, 1)] of a matrix of rows. *)
Definition transpose {A : Type} (d : A) (m : list (list A)) : list (list A) :=
  map (fun j => map (fun row => nth j row d) m) (seq 0 (length (hd [] m))).

(** [t.view(t.size(0), -1)] of one sample: its entries in storage order. *)
Definition flatten3 (t : tensor3) : tensor1 := concat (map (@concat R) t).

Definition size2 (t : tensor2) : Sz.size :=
  [Z.of_nat (length t); Z.of_nat (length (hd [] t))].

Definition size4 (t : tensor4) : Sz.size :=
  [Z.of_nat (length t); Z.of_nat (length (hd [] t));
   Z.of_nat (length (hd [] (hd [] t)));
   Z.of_nat (length (hd [] (hd [] (hd [] t))))].

(** *** [index_to_one_hot] *)

(** One row of [torch.eye(n)]. *)
Definition eye_row (n idx : nat) : tensor1 :=
  map (fun j => if Nat.eqb j idx then 1 else 0) (seq 0 n).

Definition index_to_one_hot (index_tensor : list Z) (num_classes : nat) : tensor2 :=
  map (fun i => eye_row num_classes (Z.to_nat i)) index_tensor.

(** *** [squash_vector], along the last axis

    [squared_norm = (tensor**2).sum(dim=dim, keepdim=True)],
    [scale = squared_norm / (1 + squared_norm)],
    [scale * tensor / torch.sqrt(squared_norm)], for one slice of the last
    axis; the product is formed before the quotient. *)
Definition squash_vector (tensor : tensor1) : option tensor1 :=
  let squared_norm := rsum (map (fun t => t ^ 2) tensor) in
  (scale <- checked_div squared_norm (1 + squared_norm) ;;
   mapM (fun t => checked_div (scale * t) (sqrt squared_norm)) tensor)%undef.

(** The same on tensors of higher rank: every slice of the last axis on its own. *)
Definition squash_vector2 (t : tensor2) : option tensor2 := mapM squash_vector t.
Definition squash_vector3 (t : tensor3) : option tensor3 := mapM squash_vector2 t.
Definition squash_vector4 (t : tensor4) : option tensor4 := mapM squash_vector3 t.

(** Euclidean norm and the vector of norm one with the same direction. *)
Definition norm (v : tensor1) : R := sqrt (rsum (map (fun t => t ^ 2) v)).

(** The squash of the capsule architecture, written as a formula. *)
Definition squash_formula (v : tensor1) : tensor1 :=
  map (fun t => (norm v ^ 2 / (1 + norm v ^ 2)) * (t / norm v)) v.

(** *** [softmax]

    [F.softmax] on the rows of a matrix; a row is never empty where an
    entry is computed, so the divisor is a sum of positive numbers. *)
Definition F_softmax (input : tensor1) : tensor1 :=
  let e := map exp input in
  map (fun a => a / rsum e) e.

(** The entries of one output channel of a cell, route by route. *)
Definition column (m : tensor2) (k : nat) : tensor1 := map (fun row => nth k row 0) m.

(** [softmax(input, dim=2)] on a tensor of size (capsules, batch, routes, 1,
    out); the axis of size one is not represented.  The route axis is moved
    last, the rows are normalised, and the axis is moved back. *)
Definition softmax (input : tensor4) : tensor4 :=
  let transposed_input := map (map (transpose 0)) input in
  let softmaxed_output := map (map (map F_softmax)) transposed_input in
  map (map (transpose 0)) softmaxed_output.

(** *** Library modules *)

Definition relu (x : R) : R := Rmax 0 x.

Definition sigmoid (x : R) : R := 1 / (1 + exp (- x)).

Record Conv2d : Type := {
  weight : tensor4;       (* out_channels, in_channels, kernel, kernel *)
  bias : tensor1;
  kernel_size : nat;
  stride : nat
}.

Definition conv_out (n k s : nat) : nat := ((n - k) / s + 1)%nat.

(** One output entry: the bias plus the products of the kernel with the
    window whose corner is [(i * stride, j * stride)], over all input channels. *)
Definition conv_at (k s : nat) (w : tensor3) (b : R) (img : tensor3) (i j : nat) : R :=
  b + rsum (map2 (fun wc xc =>
              rsum (map (fun u =>
                rsum (map (fun v =>
                  nth v (nth u wc []) 0 * nth (j * s + v) (nth (i * s + u) xc []) 0)
                  (seq 0 k)))
                (seq 0 k)))
            w img).

Definition Conv2d_forward (c : Conv2d) (x : tensor4) : tensor4 :=
  map (fun img =>
         let h := length (hd [] img) in
         let w := length (hd [] (hd [] img)) in
         map2 (fun wo bo =>
                 map (fun i =>
                        map (fun j => conv_at (kernel_size c) (stride c) wo bo img i j)
                            (seq 0 (conv_out w (kernel_size c) (stride c))))
                     (seq 0 (conv_out h (kernel_size c) (stride c))))
              (weight c) (bias c))
      x.

Record Linear : Type := {
  lin_weight : tensor2;   (* out_features, in_features *)
  lin_bias : tensor1
}.

Inductive Layer : Type :=
| LinearL (l : Linear)
| ReLU
| Sigmoid.

Definition Layer_forward (m : Layer) (x : tensor2) : tensor2 :=
  match m with
  | LinearL l =>
      map (fun row => map2 (fun w b => rsum (map2 Rmult row w) + b)
                           (lin_weight l) (lin_bias l)) x
  | ReLU => map (map relu) x
  | Sigmoid => map (map sigmoid) x
  end.

(** [nn.Sequential] *)
Definition Sequential_forward (ms : list Layer) (x : tensor2) : tensor2 :=
  fold_left (fun a m => Layer_forward m a) ms x.

(** *** [CapsuleLayer] *)

Record CapsuleLayer : Type := {
  num_routes : Z;
  num_iterations : Z;
  num_capsules : Z;
  route_weights : tensor4;   (* num_capsules, num_routes, in_channels, out_channels *)
  capsules : list Conv2d
}.

(** [__init__]; the values drawn by [torch.randn] and by the constructor of
    each convolution are arguments. *)
Definition CapsuleLayer_init (num_capsules num_routes : Z) (kernel_size stride : option nat)
    (num_iterations : Z) (randn : tensor4) (conv_draw : Z -> tensor4 * tensor1)
  : CapsuleLayer :=
  if negb (num_routes =? -1)%Z then
    {| num_routes := num_routes;
       num_iterations := num_iterations;
       num_capsules := num_capsules;
       route_weights := randn;
       capsules := [] |}
  else
    {| num_routes := num_routes;
       num_iterations := num_iterations;
       num_capsules := num_capsules;
       route_weights := [];
       capsules :=
         match kernel_size, stride with
         | Some k, Some s =>
             map (fun i => {| weight := fst (conv_draw i);
                              bias := snd (conv_draw i);
                              kernel_size := k;
                              stride := s |})
                 (range num_capsules)
         | _, _ => []   (* the constructor of the convolution raises: see [Sz] *)
         end |}.

(** A row vector times a matrix. *)
Definition vecmat (v : tensor1) (m : tensor2) : tensor1 :=
  map (fun k => rsum (map2 (fun vi row => vi * nth k row 0) v m))
      (seq 0 (length (hd [] m))).

(** [x[None, :, :, None, :] @ self.route_weights[:, None, :, :, :]]:
    entry (capsule, sample, route) is the prediction vector
    [x[sample][route] @ route_weights[capsule][route]]. *)
Definition compute_priors (x : tensor3) (w : tensor4) : tensor4 :=
  map (fun wc => map (fun xb => map2 vecmat xb wc) x) w.

(** The sizes of nested lists: [r] rows of [c] entries, and so on. *)
Definition has_size2 (m : tensor2) (r c : nat) : bool :=
  Nat.eqb (length m) r && forallb (fun v => Nat.eqb (length v) c) m.

Definition has_size3 (t : tensor3) (b r c : nat) : bool :=
  Nat.eqb (length t) b && forallb (fun m => has_size2 m r c) t.

Definition has_size4 (t : tensor4) (a b r c : nat) : bool :=
  Nat.eqb (length t) a && forallb (fun u => has_size3 u b r c) t.

(** The sizes with which the matrix product of [forward] is the one
    [compute_priors] gives: route weights of size (capsules, routes, in,
    out) and an input of size (batch, routes, in), no axis empty.  On other
    sizes the product raises or broadcasts: see [Sz.matmul]. *)
Definition fits_routes (self : CapsuleLayer) (x : tensor3) (nc nb nr nin nout : nat) : bool :=
  has_size4 (route_weights self) nc nr nin nout
  && has_size3 x nb nr nin
  && forallb (Nat.leb 1) [nc; nb; nr; nin; nout].

(** [torch.zeros(priors.size())] *)
Definition zeros_like (t : tensor4) : tensor4 :=
  map (map (map (map (fun _ => 0)))) t.

(** [probs * priors] *)
Definition mul4 (a b : tensor4) : tensor4 :=
  map2 (map2 (map2 (map2 Rmult))) a b.

(** [t.sum(dim=2, keepdim=True)]: the sum over the routes. *)
Definition sum_dim2 (t : tensor4) : tensor3 :=
  map (map (fun m => map rsum (transpose 0 m))) t.

(** [(priors * outputs).sum(dim=-1, keepdim=True)]: [outputs] is repeated
    along the routes, and each route gets the inner product of its
    prediction vector with the output vector. *)
Definition agreement (priors : tensor4) (outputs : tensor3) : tensor3 :=
  map2 (map2 (fun p o => map (fun pr => rsum (map2 Rmult pr o)) p)) priors outputs.

(** [logits + delta_logits]: [delta_logits] is repeated along the last axis. *)
Definition add_delta (logits : tensor4) (delta_logits : tensor3) : tensor4 :=
  map2 (map2 (map2 (fun l d => map (fun a => a + d) l))) logits delta_logits.

(** What the loop does, in order, beside computing. *)
Inductive routing_event : Type :=
| Iteration (i : Z) (probs : option tensor4)
| LogitUpdate (i : Z).

(** The names the loop assigns.  A tensor that holds an undefined entry
    is [None]; [outputs] is not bound before the first pass. *)
Record routing_vars : Type := {
  logits : option tensor4;
  outputs : option (option tensor3);
  events : list routing_event
}.

(** The body of [for i in range(self.num_iterations)]. *)
Definition routing_body (n : Z) (priors : option tensor4)
    (v : routing_vars) (i : Z) : routing_vars :=
  let probs := option_map softmax (logits v) in
  let outs := (p <- probs ;;
               pr <- priors ;;
               squashed <- squash_vector4 (mul4 p pr) ;;
               Some (sum_dim2 squashed))%undef in
  let ev := events v ++ [Iteration i probs] in
  if negb (i =? n - 1)%Z then
    let delta_logits := (pr <- priors ;; o <- outs ;; Some (agreement pr o))%undef in
    {| logits := (l <- logits v ;; d <- delta_logits ;; Some (add_delta l d))%undef;
       outputs := Some outs;
       events := ev ++ [LogitUpdate i] |}
  else
    {| logits := logits v; outputs := Some outs; events := ev |}.

(** The branch [if self.num_routes != -1] up to the end of the loop. *)
Definition routing (self : CapsuleLayer) (x : option tensor3) : routing_vars :=
  let priors := option_map (fun x => compute_priors x (route_weights self)) x in
  fold_left (routing_body (num_iterations self) priors)
            (range (num_iterations self))
            {| logits := option_map zeros_like priors; outputs := None; events := [] |}.

Definition is_iteration (e : routing_event) : bool :=
  match e with Iteration _ _ => true | LogitUpdate _ => false end.

Definition is_logit_update (e : routing_event) : bool :=
  match e with Iteration _ _ => false | LogitUpdate _ => true end.

(** How many times the loop body ran, and how many times it assigned [logits]. *)
Definition count_iterations (ev : list routing_event) : Z :=
  Z.of_nat (length (filter is_iteration ev)).

Definition count_logit_updates (ev : list routing_event) : Z :=
  Z.of_nat (length (filter is_logit_update ev)).

(** Every coupling coefficient is one over the number of routes. *)
Definition uniform_over_routes (priors probs : tensor4) : Prop :=
  Forall2 (Forall2 (fun routes p =>
             Forall (Forall (fun a => a = 1 / INR (length routes))) p))
          priors probs.

(** [forward] on a layer with routes: [return outputs].  The result has
    size (capsules, batch, 1, 1, out); the two axes of size one are not
    represented. *)
Definition CapsuleLayer_forward_routing (self : CapsuleLayer) (x : option tensor3)
  : result (option tensor3) :=
  match outputs (routing self x) with
  | None => Raise UnboundLocalError
  | Some o => Ok o
  end.

(** [forward] on a layer without routes ([num_routes == -1]): each
    convolution is flattened per sample, the results are laid side by side
    along a new last axis, and every vector along it is squashed. *)
Definition CapsuleLayer_forward_capsules (self : CapsuleLayer) (x : tensor4)
  : option tensor3 :=
  let outputs := map (fun capsule => map flatten3 (Conv2d_forward capsule x))
                     (capsules self) in
  let outputs := map (transpose 0) (transpose [] outputs) in
  squash_vector3 outputs.

(** The routing the capsule architecture prescribes, for comparison: the
    output is the squash of the coupling-weighted sum of the predictions. *)
Definition prescribed_outputs (probs priors : tensor4) : option tensor3 :=
  squash_vector3 (sum_dim2 (mul4 probs priors)).

(** Priors that repeat one prediction [p] on each of [S nr] routes of every
    sample and capsule, and logits that hold the same number everywhere. *)
Definition equal_priors (nc nb nr : nat) (p : tensor1) : tensor4 :=
  repeat (repeat (repeat p (S nr)) nb) nc.

Definition equal_logits (nc nb nr : nat) (p : tensor1) (a : R) : tensor4 :=
  repeat (repeat (repeat (repeat a (length p)) (S nr)) nb) nc.

Definition shared (nc nb : nat) (v : tensor1) : tensor3 := repeat (repeat v nb) nc.

(** What the loop computes on such priors: every route contributes the
    squash of its own share [p / routes]. *)
Definition summed_squashes (nr : nat) (p : tensor1) : tensor1 :=
  map (fun t => INR (S nr) * t) (squash_formula (map (fun t => 1 / INR (S nr) * t) p)).

(** [CapsuleLayer(1, 2, 1, 1)]: one capsule, two routes, one channel in
    and out, the default three passes, every weight 1; and a batch of one
    sample whose two input capsules both hold 2. *)
Definition two_route_layer : CapsuleLayer :=
  {| num_routes := 2;
     num_iterations := 3;
     num_capsules := 1;
     route_weights := [[[[1]]; [[1]]]];
     capsules := [] |}.

Definition two_route_input : tensor3 := [[[2]; [2]]].

(** The same layer built with [num_iterations=0]. *)
Definition no_pass_layer : CapsuleLayer :=
  {| num_routes := 2;
     num_iterations := 0;
     num_capsules := 1;
     route_weights := [[[[1]]; [[1]]]];
     capsules := [] |}.

(** *** [MarginLoss] *)

(** [nn.MSELoss(size_average=False)]: the sum of the squared differences,
    entry by entry in storage order. *)
Definition mse_loss_sum (input target : tensor1) : R :=
  rsum (map2 (fun a b => (a - b) ^ 2) input target).

Definition MarginLoss_forward (images : tensor4) (labels classes reconstructions : tensor2)
  : option R :=
  let left := map (map (fun c => relu (9 / 10 - c) ^ 2)) classes in
  let right := map (map (fun c => relu (c - 1 / 10) ^ 2)) classes in
  let margin_loss :=
    map2 (map2 Rplus)
         (map2 (map2 Rmult) labels left)
         (map2 (map2 Rmult) (map (map (fun l => 5 / 10 * (1 - l))) labels) right) in
  let margin_loss := rsum (concat margin_loss) in
  let reconstruction_loss :=
    mse_loss_sum (concat reconstructions) (concat (map flatten3 images)) in
  checked_div (margin_loss + 5 / 10000 * reconstruction_loss) (INR (length images)).

(** The loss as the sentence states it: sums over the samples, the classes
    and the pixels, by index. *)
Definition entry2 (t : tensor2) (b c : nat) : R := nth c (nth b t []) 0.

Definition margin_formula (labels classes : tensor2) (nb nc : nat) : R :=
  rsum (map (fun b =>
    rsum (map (fun c =>
      entry2 labels b c * relu (9 / 10 - entry2 classes b c) ^ 2
      + 5 / 10 * (1 - entry2 labels b c) * relu (entry2 classes b c - 1 / 10) ^ 2)
      (seq 0 nc)))
    (seq 0 nb)).

Definition squared_error_formula (images : tensor4) (reconstructions : tensor2)
    (nb npix : nat) : R :=
  rsum (map (fun b =>
    rsum (map (fun p =>
      (entry2 reconstructions b p - nth p (flatten3 (nth b images [])) 0) ^ 2)
      (seq 0 npix)))
    (seq 0 nb)).

(** *** [CapsuleNet] *)

Record CapsuleNet : Type := {
  conv1 : Conv2d;
  primary_capsules : CapsuleLayer;
  digit_capsules : CapsuleLayer;
  decoder : list Layer
}.

(** What [model.parameters()] holds. *)
Record parameters : Type := {
  conv1_weight : tensor4;
  conv1_bias : tensor1;
  primary_draw : Z -> tensor4 * tensor1;
  digit_route_weights : tensor4;
  fc1 : Linear;
  fc2 : Linear;
  fc3 : Linear
}.

(** [__init__] takes no argument; the values of the parameters
    are the only thing that varies between two networks. *)
Definition CapsuleNet_init (p : parameters) : CapsuleNet :=
  {| conv1 := {| weight := conv1_weight p; bias := conv1_bias p;
                 kernel_size := 9; stride := 1 |};
     primary_capsules :=
       CapsuleLayer_init 8 (-1) (Some 9%nat) (Some 2%nat) 3 [] (primary_draw p);
     digit_capsules :=
       CapsuleLayer_init 10 (32 * 6 * 6) None None 3 (digit_route_weights p) (fun _ => ([], []));
     decoder := [LinearL (fc1 p); ReLU; LinearL (fc2 p); ReLU; LinearL (fc3 p); Sigmoid] |}.

(** [classes.max(dim=1)] gives, per row, the first index of a largest entry. *)
Fixpoint argmax_from (best : R) (besti i : nat) (l : list R) : nat :=
  match l with
  | [] => besti
  | a :: l' =>
      if Rlt_dec best a then argmax_from a i (S i) l'
      else argmax_from best besti (S i) l'
  end.

Definition argmax (l : tensor1) : nat :=
  match l with
  | [] => 0%nat
  | a :: l' => argmax_from a 0 1 l'
  end.

(** The lengths of the output vectors of the digit capsules, per sample
    and class: [(x ** 2).sum(dim=-1) ** 0.5] after
    [.squeeze().transpose(0, 1)]. *)
Definition capsule_lengths (d : tensor3) : tensor2 :=
  map (map norm) (transpose [] d).

(** The output of the digit capsules inside [forward]. *)
Definition digit_outputs (self : CapsuleNet) (x : tensor4) : result (option tensor3) :=
  let x := map (map (map (map relu))) (Conv2d_forward (conv1 self) x) in
  let x := CapsuleLayer_forward_capsules (primary_capsules self) x in
  CapsuleLayer_forward_routing (digit_capsules self) x.

(** [forward(x, y=None)].  The exceptions are those of the size reading;
    in particular [.squeeze()] also drops the batch axis of a batch of one
    image, and the product with [y[:, :, None]] then raises. *)
Definition CapsuleNet_forward (self : CapsuleNet) (x : tensor4) (y : option tensor2)
  : result (option (tensor2 * tensor2)) :=
  (_ <- Sz.model (size4 x) (option_map size2 y) ;;
   d <- digit_outputs self x ;;
   Ok (d <- d ;;
       let x := transpose [] d in
       let classes := map (map norm) x in
       let classes := map F_softmax classes in
       let y := match y with
                | None => map (fun row => eye_row 10 (argmax row)) classes
                | Some y => y
                end in
       let masked := map2 (map2 (fun v c => map (fun t => t * c) v)) x y in
       let reconstructions := Sequential_forward (decoder self) (map (@concat R) masked) in
       Some (classes, reconstructions))%undef)%py.

(** A network to run by hand: the convolutions have zero weights; the
    first primary capsule has bias 1 and the other seven bias 0; every
    route of every digit capsule has the weight 2304 from its first input
    to its first output channel and 0 elsewhere; the decoder is zero. *)
Definition zero_kernels (cout cin : nat) : tensor4 :=
  repeat (repeat (repeat (repeat 0 9%nat) 9%nat) cin) cout.

Definition first_to_first : tensor2 :=
  (2304 :: repeat 0 15%nat) :: repeat (repeat 0 16%nat) 7%nat.

Definition zero_linear (out_features in_features : nat) : Linear :=
  {| lin_weight := repeat (repeat 0 in_features) out_features;
     lin_bias := repeat 0 out_features |}.

Definition example_parameters : parameters :=
  {| conv1_weight := zero_kernels 256 1;
     conv1_bias := repeat 0 256%nat;
     primary_draw := fun i => (zero_kernels 32 256,
                               repeat (if (i =? 0)%Z then 1 else 0) 32%nat);
     digit_route_weights := repeat (repeat first_to_first 1152%nat) 10%nat;
     fc1 := zero_linear 512 160;
     fc2 := zero_linear 1024 512;
     fc3 := zero_linear 784 1024 |}.

(** Vectors met when running it: the biases of the eight primary
    capsules, their squash, and the prediction of one route. *)
Definition first_unit : tensor1 := [1; 0; 0; 0; 0; 0; 0; 0].
Definition half_unit : tensor1 := [1 / 2; 0; 0; 0; 0; 0; 0; 0].
Definition first_1152 : tensor1 := 1152 :: repeat 0 15%nat.

(** Two black images of 28 by 28 pixels, both labelled 0. *)
Definition black_images : tensor4 :=
  repeat (repeat (repeat (repeat 0 28%nat) 28%nat) 1%nat) 2%nat.

Definition zero_labels : tensor2 := repeat (eye_row 10 0) 2%nat.

End Values.

(** ** The index reading, in exact arithmetic and in float32

    A tensor of any rank is its size and its entry at each index, so that
    [squash_vector] can be read with its [dim] argument.  The arithmetic is
    a parameter: exact reals, where a quotient by zero has no value, or the
    binary32 numbers the tensor library computes with, where it is NaN and
    a number too large is an infinity. *)

Module Nd.

Class Number (num : Type) : Type := {
  num_zero : num;
  num_one : num;
  num_add : num -> num -> num;
  num_mul : num -> num -> num;
  num_div : num -> num -> num;
  num_sqrt : num -> num
}.

(** *** Exact arithmetic: [None] is a number without a value *)

Definition exact_op (f : R -> R -> R) (a b : option R) : option R :=
  (x <- a ;; y <- b ;; Some (f x y))%undef.

Definition exact_div (a b : option R) : option R :=
  (x <- a ;; y <- b ;; checked_div x y)%undef.

Definition exact_sqrt (a : option R) : option R :=
  (x <- a ;; if Rlt_dec x 0 then None else Some (sqrt x))%undef.

#[global] Instance exact : Number (option R) := {|
  num_zero := Some 0%R;
  num_one := Some 1%R;
  num_add := exact_op Rplus;
  num_mul := exact_op Rmult;
  num_div := exact_div;
  num_sqrt := exact_sqrt
|}.

(** *** binary32: 24 bits of precision, exponents below 128 *)

Definition prec : Z := 24.
Definition emax : Z := 128.

#[global] Instance float32 : Number spec_float := {|
  num_zero := S754_zero false;
  num_one := S754_finite false 8388608 (-23);
  num_add := SFadd prec emax;
  num_mul := SFmul prec emax;
  num_div := SFdiv prec emax;
  num_sqrt := SFsqrt prec emax
|}.

Definition is_nan (x : spec_float) : bool :=
  match x with S754_nan => true | _ => false end.

(** A number above zero that is not an infinity. *)
Definition is_positive_finite (x : spec_float) : bool :=
  match x with S754_finite false _ _ => true | _ => false end.

Definition is_zero (x : spec_float) : bool :=
  match x with S754_zero _ => true | _ => false end.

(** The real number a binary32 number stands for. *)
Definition to_R (x : spec_float) : R :=
  match x with
  | S754_finite s m e => ((if s then -1 else 1) * IZR (Zpos m) * powerRZ 2 e)%R
  | _ => 0%R
  end.

(** *** Tensors *)

Record nd (num : Type) : Type := {
  size : list nat;
  entry : list nat -> num
}.

Arguments size {num} _.
Arguments entry {num} _ _.

(** The index [i] with [k] at axis [d]. *)
Definition set_at (d k : nat) (i : list nat) : list nat :=
  firstn d i ++ k :: skipn (S d) i.

(** An index of a tensor of size [sz]. *)
Definition in_range (sz i : list nat) : bool :=
  Nat.eqb (length i) (length sz)
  && forallb (fun p => Nat.ltb (snd p) (fst p)) (combine sz i).

(** Broadcasting: an axis of size one is read at 0 whatever the index. *)
Definition clamp (sz i : list nat) : list nat :=
  map2 (fun n k => if Nat.eqb n 1 then 0%nat else k) sz i.

Section Operations.

Context {num : Type} {arith : Number num}.

Definition map_entries (f : num -> num) (t : nd num) : nd num :=
  {| size := size t; entry := fun i => f (entry t i) |}.

(** [a op b] with broadcasting. *)
Definition broadcast2 (f : num -> num -> num) (a b : nd num) : nd num :=
  {| size := map2 Nat.max (size a) (size b);
     entry := fun i => f (entry a (clamp (size a) i)) (entry b (clamp (size b) i)) |}.

(** The entries along axis [d] through the index [i]. *)
Definition slice (t : nd num) (d : nat) (i : list nat) : list num :=
  map (fun k => entry t (set_at d k i)) (seq 0 (nth d (size t) 0%nat)).

(** The entries of a slice are added from the first to the last. *)
Definition total (l : list num) : num := fold_left num_add l num_zero.

(** [t.sum(dim=d, keepdim=True)] *)
Definition sum_keepdim (t : nd num) (d : nat) : nd num :=
  {| size := set_at d 1 (size t); entry := fun i => total (slice t d i) |}.

(** [squared_norm] of [squash_vector]: [(tensor**2).sum(dim=dim, keepdim=True)]. *)
Definition squared_norm (tensor : nd num) (d : nat) : nd num :=
  sum_keepdim (map_entries (fun a => num_mul a a) tensor) d.

(** [squash_vector(tensor, dim=-1)]; a [dim] that is not an axis raises in [sum]. *)
Definition squash_vector (tensor : nd num) (dim : Z) : result (nd num) :=
  (d <- Sz.wrap_dim (map Z.of_nat (size tensor)) dim ;;
   let squared_norm := squared_norm tensor d in
   let scale :=
     broadcast2 num_div squared_norm (map_entries (num_add num_one) squared_norm) in
   Ok (broadcast2 num_div (broadcast2 num_mul scale tensor)
                  (map_entries num_sqrt squared_norm)))%py.

(** A vector and a matrix as tensors. *)
Definition of_list (d : num) (v : list num) : nd num :=
  {| size := [length v]; entry := fun i => nth (nth 0 i 0%nat) v d |}.

Definition of_rows (d : num) (m : list (list num)) : nd num :=
  {| size := [length m; length (hd [] m)];
     entry := fun i => nth (nth 1 i 0%nat) (nth (nth 0 i 0%nat) m []) d |}.

End Operations.

(** The exact reading of a tensor of binary32 numbers. *)
Definition exact_of (t : nd spec_float) : nd (option R) :=
  {| size := size t; entry := fun i => Some (to_R (entry t i)) |}.

(** Two inputs: about 1e20, whose square is above the largest binary32
    number, and about 1e-30, whose square is below the smallest. *)
Definition large : spec_float := S754_finite false 11368684 43.
Definition tiny : spec_float := S754_finite false 10633824 (-123).

End Nd.

(** ** The script: globals, loaders and the epoch loop

    The cell that trains and tests the model, in the size reading.  Every
    call with an effect outside the memory of the program is an event. *)

Module Script.
Local Open Scope Z_scope.

Inductive event : Type :=
| Download (root : string) (train : bool)   (* MNIST(root=..., download=True, train=...) *)
| ToDevice                                  (* model.cuda() *)
| TrainMode                                 (* model.train() *)
| EvalMode                                  (* model.eval() *)
| Progress                                  (* tqdm draws its bar *)
| ZeroGrad                                  (* optimizer.zero_grad() *)
| Forward (img target : Sz.size)            (* model(img, target) *)
| Loss                                      (* margin_loss(...) *)
| Backward                                  (* loss.backward() *)
| Step                                      (* optimizer.step(), optimizer = optim.Adam(...) *)
| PrintIter (idx : Z)                       (* print('Iter: ...') *)
| PrintTest.                                (* print('Test Set: ...') *)

(** An event that touches the file system. *)
Definition file_system (e : event) : bool :=
  match e with
  | Download _ _ => true
  | _ => false
  end.

(** The Python values the control flow tells apart. *)
Inductive pyval : Type :=
| PyInt (z : Z)
| PyFloat
| PyTensor (s : Sz.size)
| PyDataset (len : Z).

(** The names of the cell that are read before they are surely bound,
    and the events so far, newest first. *)
Record globals : Type := {
  reconstructions : option Sz.size;
  correct : option pyval;
  test_loss : option pyval;
  log : list event
}.

Definition trace (g : globals) : list event := rev_append (log g) [].

Definition M (A : Type) : Type := globals -> result A * globals.

Definition ret {A : Type} (a : A) : M A := fun g => (Ok a, g).

Definition bind {A B : Type} (m : M A) (f : A -> M B) : M B :=
  fun g =>
    match m g with
    | (Ok a, g') => f a g'
    | (Raise e, g') => (Raise e, g')
    end.

Declare Scope script_scope.
Delimit Scope script_scope with script.
Notation "x <- m ;; k" := (bind m (fun x => k))
  (at level 61, m at next level, right associativity) : script_scope.
Notation "m ;; k" := (bind m (fun _ => k))
  (at level 61, right associativity) : script_scope.
Local Open Scope script_scope.

Definition lift {A : Type} (r : result A) : M A := fun g => (r, g).

Definition emit (e : event) : M unit :=
  fun g => (Ok tt, {| reconstructions := reconstructions g;
                      correct := correct g;
                      test_loss := test_loss g;
                      log := e :: log g |}).

(** Reading a name that is not bound raises [NameError]. *)
Definition load {A : Type} (name : globals -> option A) : M A :=
  fun g =>
    match name g with
    | Some v => (Ok v, g)
    | None => (Raise NameError, g)
    end.

Definition set_reconstructions (s : Sz.size) : M unit :=
  fun g => (Ok tt, {| reconstructions := Some s;
                      correct := correct g;
                      test_loss := test_loss g;
                      log := log g |}).

Definition set_correct (v : pyval) : M unit :=
  fun g => (Ok tt, {| reconstructions := reconstructions g;
                      correct := Some v;
                      test_loss := test_loss g;
                      log := log g |}).

Definition set_test_loss (v : pyval) : M unit :=
  fun g => (Ok tt, {| reconstructions := reconstructions g;
                      correct := correct g;
                      test_loss := Some v;
                      log := log g |}).

Fixpoint for_each {A : Type} (l : list A) (body : A -> M unit) : M unit :=
  match l with
  | [] => ret tt
  | a :: l' => body a ;; for_each l' body
  end.

(** [len(...)] takes exactly one argument. *)
Definition py_len (args : list pyval) : result Z :=
  match args with
  | [PyDataset n] => Ok n
  | [PyTensor (n :: _)] => Ok n
  | _ => Raise TypeError
  end.

(** [a / b] on numbers. *)
Definition py_div (a : pyval) (b : Z) : result pyval :=
  match a with
  | PyInt _ | PyFloat => if b =? 0 then Raise ZeroDivisionError else Ok PyFloat
  | other => Ok other
  end.

(** [v.data]: only a tensor has it. *)
Definition py_data (v : pyval) : result Sz.size :=
  match v with
  | PyTensor s => Ok s
  | _ => Raise AttributeError
  end.

(** The sizes of the batches a [DataLoader] yields in one pass over a
    dataset of [n] items; a last, smaller batch is not dropped. *)
Definition batch_sizes (n batch_size : Z) : list Z :=
  repeat batch_size (Z.to_nat (n / batch_size))
  ++ (if n mod batch_size =? 0 then [] else [n mod batch_size]).

(** [enumerate(loader)] *)
Definition enumerate {A : Type} (l : list A) : list (Z * A) :=
  combine (range (Z.of_nat (length l))) l.

(** The body of [for idx, (img, target) in enumerate(tqdm(train_loader))]. *)
Definition train_batch (model : Sz.CapsuleNet) (item : Z * Z) : M unit :=
  let idx := fst item in
  let img := [snd item; 1; 28; 28] in
  emit Progress ;;
  target <- lift (Sz.index_to_one_hot [snd item] 10) ;;
  emit ZeroGrad ;;
  out <- lift (Sz.CapsuleNet_forward model img (Some target)) ;;
  emit (Forward img target) ;;
  set_reconstructions (snd out) ;;
  loss <- lift (Sz.MarginLoss_forward img target (fst out) (snd out)) ;;
  emit Loss ;;
  emit Backward ;;
  emit Step ;;
  _ <- lift (Sz.size_at loss 0) ;;      (* loss.data[0] *)
  emit (PrintIter idx) ;;
  set_correct (PyInt 0) ;;
  set_test_loss (PyInt 0) ;;
  emit EvalMode.

(** The body of [for idx, (img, target) in enumerate(test_loader)].  The
    result of the model is bound to [classes] and [recontructions]; the
    loss reads [reconstructions]. *)
Definition test_batch (model : Sz.CapsuleNet) (item : Z * Z) : M unit :=
  let img := [snd item; 1; 28; 28] in
  target <- lift (Sz.index_to_one_hot [snd item] 10) ;;
  out <- lift (Sz.CapsuleNet_forward model img (Some target)) ;;
  emit (Forward img target) ;;
  let classes := fst out in
  old <- load test_loss ;;
  stale <- load reconstructions ;;
  l <- lift (Sz.MarginLoss_forward img target classes stale) ;;
  emit Loss ;;
  set_test_loss (PyTensor l) ;;
  m <- lift (Sz.max classes 1 true) ;;
  let pred := snd m in
  _ <- load correct ;;
  viewed <- lift (Sz.view target pred) ;;
  _ <- lift (Sz.broadcast pred viewed) ;;
  set_correct PyFloat.

(** The body of [for e in range(10)]. *)
Definition epoch (model : Sz.CapsuleNet) (n_train n_test : Z) (e : Z) : M unit :=
  emit TrainMode ;;
  for_each (enumerate (batch_sizes n_train 8)) (train_batch model) ;;
  for_each (enumerate (batch_sizes n_test 8)) (test_batch model) ;;
  old <- load test_loss ;;
  n <- lift (py_len [PyDataset n_test]) ;;
  avg <- lift (py_div old n) ;;
  set_test_loss avg ;;
  _ <- lift (py_data avg) ;;
  c <- load correct ;;
  n <- lift (py_len [PyDataset n_test]) ;;
  pct <- lift (py_div c n) ;;
  _ <- lift (py_len [PyDataset n_test; pct]) ;;
  emit PrintTest.

(** The cell, on a training set of [n_train] and a test set of [n_test] images. *)
Definition script (n_train n_test : Z) : M unit :=
  model <- lift Sz.CapsuleNet_init ;;
  emit ToDevice ;;
  emit (Download "/tmp"%string true) ;;
  emit (Download "/tmp"%string false) ;;
  for_each (range 10) (epoch model n_train n_test).

Definition start : globals :=
  {| reconstructions := None; correct := None; test_loss := None; log := [] |}.

Definition run (n_train n_test : Z) : result unit * list event :=
  let r := script n_train n_test start in
  (fst r, trace (snd r)).

(** What one training batch of [b] images with index [idx] leaves in the trace. *)
Definition train_batch_events (idx b : Z) : list event :=
  [Progress; ZeroGrad; Forward [b; 1; 28; 28] [b; 10]; Loss; Backward; Step;
   PrintIter idx; EvalMode].

Definition count (p : event -> bool) (l : list event) : nat := length (filter p l).

Definition is_train_mode (e : event) : bool :=
  match e with TrainMode => true | _ => false end.

Definition is_print_test (e : event) : bool :=
  match e with PrintTest => true | _ => false end.

(** A computation that adds only events satisfying [P] to the log. *)
Definition emits_only (P : event -> Prop) {A : Type} (m : M A) : Prop :=
  forall g, exists evs, log (snd (m g)) = evs ++ log g /\ Forall P evs.

(** A computation that always raises, having added only events satisfying [P]. *)
Definition raises_after (P : event -> Prop) {A : Type} (m : M A) : Prop :=
  forall g, (exists e, fst (m g) = Raise e)
            /\ exists evs, log (snd (m g)) = evs ++ log g /\ Forall P evs.

(** The log when the epoch loop starts. *)
Definition setup_log : list event :=
  [Download "/tmp"%string false; Download "/tmp"%string true; ToDevice].

(** MNIST: 60000 training and 10000 test images, that is 7500 and 1250
    batches of 8.  The trace of the script on them, and its last state. *)
Definition mnist_trace : list event :=
  [ToDevice; Download "/tmp"%string true; Download "/tmp"%string false; TrainMode]
  ++ flat_map (fun it => train_batch_events (fst it) (snd it))
              (enumerate (repeat 8 (Z.to_nat 7500)))
  ++ [Forward [8; 1; 28; 28] [8; 10]; Loss].

Definition mnist_final : globals :=
  {| reconstructions := Some [8; 784];
     correct := Some (PyInt 0);
     test_loss := Some (PyTensor [1]);
     log := Loss :: Forward [8; 1; 28; 28] [8; 10]
            :: rev (flat_map (fun it => train_batch_events (fst it) (snd it))
                             (enumerate (repeat 8 (Z.to_nat 7500))))
            ++ TrainMode :: setup_log |}.

End Script.

(** * Properties *)

(** ** Sums, lists and partial maps *)

Section ListFacts.
Local Open Scope R_scope.

Lemma rsum_app (l1 l2 : list R) : rsum (l1 ++ l2) = rsum l1 + rsum l2.
Proof.
  induction l1 as [|a l1 IH]; simpl.
  - lra.
  - rewrite IH. lra.
Qed.

Lemma rsum_concat (t : list (list R)) : rsum (concat t) = rsum (map rsum t).
Proof.
  induction t as [|r t IH]; simpl.
  - reflexivity.
  - rewrite rsum_app, IH. reflexivity.
Qed.

Lemma rsum_repeat (c : R) (n : nat) : rsum (repeat c n) = INR n * c.
Proof.
  induction n as [|n IH].
  - simpl. lra.
  - rewrite S_INR. simpl. rewrite IH. lra.
Qed.

Lemma rsum_nonneg (l : list R) : Forall (fun a => 0 <= a) l -> 0 <= rsum l.
Proof.
  induction 1 as [|a l Ha _ IH]; simpl; lra.
Qed.

Lemma rsum_squares_nonneg (v : list R) : 0 <= rsum (map (fun t => t ^ 2) v).
Proof.
  apply rsum_nonneg. apply Forall_forall. intros a Ha.
  apply in_map_iff in Ha. destruct Ha as [t [<- _]]. nra.
Qed.

Lemma rsum_squares_scale (k : R) (v : list R) :
  rsum (map (fun t => t ^ 2) (map (fun t => k * t) v))
  = k ^ 2 * rsum (map (fun t => t ^ 2) v).
Proof.
  induction v as [|a v IH]; simpl.
  - lra.
  - simpl in IH. rewrite IH. lra.
Qed.

Lemma mapM_total {A B : Type} (f : A -> option B) (g : A -> B) (l : list A) :
  (forall a, In a l -> f a = Some (g a)) -> mapM f l = Some (map g l).
Proof.
  induction l as [|a l IH]; intros H; simpl.
  - reflexivity.
  - rewrite (H a (or_introl eq_refl)), IH; [reflexivity|].
    intros b Hb. apply H. right. exact Hb.
Qed.


Lemma fraction_below_one (x : R) : 0 <= x -> x / (1 + x) < 1.
Proof.
  intros Hx.
  assert (Hsplit : x / (1 + x) = 1 - 1 / (1 + x)) by (field; lra).
  assert (Hpos : 0 < 1 / (1 + x)) by (apply Rdiv_lt_0_compat; lra).
  lra.
Qed.

Lemma checked_div_some (a b : R) : b <> 0 -> checked_div a b = Some (a / b).
Proof.
  intros Hb. unfold checked_div. destruct (Req_dec_T b 0); [contradiction | reflexivity].
Qed.

Lemma checked_div_zero (a : R) : checked_div a 0 = None.
Proof.
  unfold checked_div. destruct (Req_dec_T 0 0) as [_ | H]; [reflexivity | now elim H].
Qed.

End ListFacts.

(** ** [squash_vector] *)

Section Squash.
Local Open Scope R_scope.

Lemma norm_positive_squares (v : tensor1) :
  0 < norm v -> 0 < rsum (map (fun t => t ^ 2) v).
Proof.
  unfold norm. intros H.
  destruct (rsum_squares_nonneg v) as [Hlt | Heq]; [exact Hlt|].
  rewrite <- Heq, sqrt_0 in H. lra.
Qed.

Lemma norm_squared (v : tensor1) : norm v ^ 2 = rsum (map (fun t => t ^ 2) v).
Proof.
  unfold norm. simpl. rewrite Rmult_1_r. apply sqrt_sqrt. apply rsum_squares_nonneg.
Qed.

Lemma norm_scale (k : R) (v : tensor1) :
  0 <= k -> norm (map (fun t => k * t) v) = k * norm v.
Proof.
  intros Hk. unfold norm. rewrite rsum_squares_scale.
  rewrite sqrt_mult; [| nra | apply rsum_squares_nonneg].
  rewrite sqrt_pow2 by exact Hk. reflexivity.
Qed.

(** On a slice of positive norm the code computes the formula. *)
Lemma squash_vector_defined (v : tensor1) :
  0 < norm v -> squash_vector v = Some (squash_formula v).
Proof.
  intros Hn. pose proof (norm_positive_squares v Hn) as Hs.
  unfold squash_vector, squash_formula.
  rewrite norm_squared.
  change (sqrt (rsum (map (fun t => t ^ 2) v))) with (norm v).
  set (s := rsum (map (fun t => t ^ 2) v)) in *.
  rewrite checked_div_some by lra. cbn [obind].
  apply mapM_total. intros t _.
  rewrite checked_div_some by lra.
  f_equal. field. split; lra.
Qed.

Lemma squash_formula_scale (v : tensor1) :
  0 < norm v ->
  squash_formula v = map (fun t => (norm v / (1 + norm v ^ 2)) * t) v.
Proof.
  intros Hn. unfold squash_formula. apply map_ext. intros t.
  field. split; nra.
Qed.

Lemma squash_formula_norm (v : tensor1) :
  0 < norm v -> norm (squash_formula v) = norm v ^ 2 / (1 + norm v ^ 2).
Proof.
  intros Hn. rewrite squash_formula_scale by exact Hn.
  assert (Hk : 0 < norm v / (1 + norm v ^ 2)).
  { apply Rdiv_lt_0_compat; nra. }
  rewrite norm_scale by lra. field. nra.
Qed.

Lemma squash_zero_vector (n : nat) :
  squash_vector (repeat 0 (S n)) = None.
Proof.
  unfold squash_vector.
  assert (Hs : rsum (map (fun t => t ^ 2) (repeat 0 (S n))) = 0).
  { rewrite map_repeat, rsum_repeat. lra. }
  rewrite Hs, checked_div_some by lra. simpl obind.
  rewrite sqrt_0. simpl mapM. rewrite checked_div_zero. reflexivity.
Qed.



End Squash.

(** ** [MarginLoss.forward] *)

Section Indexing.

Lemma map_as_seq {A B : Type} (g : A -> B) (d : A) (l : list A) :
  map g l = map (fun i => g (nth i l d)) (seq 0 (length l)).
Proof.
  apply (nth_ext _ _ (g d) (g d)).
  - now rewrite !length_map, length_seq.
  - intros n Hn. rewrite length_map in Hn.
    rewrite map_nth.
    rewrite (nth_indep _ (g d) ((fun i => g (nth i l d)) 0%nat))
      by (now rewrite length_map, length_seq).
    rewrite (map_nth (fun i => g (nth i l d))).
    now rewrite seq_nth.
Qed.

Lemma map2_as_seq {A B C : Type} (f : A -> B -> C) (da : A) (db : B)
    (l1 : list A) (l2 : list B) :
  length l1 = length l2 ->
  map2 f l1 l2 = map (fun i => f (nth i l1 da) (nth i l2 db)) (seq 0 (length l1)).
Proof.
  intros Hlen. unfold map2.
  rewrite (map_as_seq _ (da, db)).
  rewrite length_combine, <- Hlen, Nat.min_id.
  apply map_ext_in. intros i Hi. apply in_seq in Hi.
  rewrite combine_nth by exact Hlen. reflexivity.
Qed.

Lemma map2_cons {A B C : Type} (f : A -> B -> C) a b l1 l2 :
  map2 f (a :: l1) (b :: l2) = f a b :: map2 f l1 l2.
Proof. reflexivity. Qed.

Lemma map2_app {A B C : Type} (f : A -> B -> C) (a1 a2 : list A) (b1 b2 : list B) :
  length a1 = length b1 ->
  map2 f (a1 ++ a2) (b1 ++ b2) = map2 f a1 b1 ++ map2 f a2 b2.
Proof.
  revert b1. induction a1 as [|a a1 IH]; intros [|b b1] Hlen; try discriminate.
  - reflexivity.
  - simpl app. rewrite !map2_cons. simpl app. f_equal. apply IH. now injection Hlen.
Qed.

Lemma map2_concat {A B C : Type} (f : A -> B -> C) (t1 : list (list A)) (t2 : list (list B)) :
  Forall2 (fun r1 r2 => length r1 = length r2) t1 t2 ->
  map2 f (concat t1) (concat t2) = concat (map2 (map2 f) t1 t2).
Proof.
  induction 1 as [|r1 r2 t1 t2 Hr _ IH].
  - reflexivity.
  - simpl. rewrite map2_app by exact Hr. rewrite IH. reflexivity.
Qed.

Lemma map_map2 {A B C D : Type} (g : C -> D) (f : A -> B -> C) l1 l2 :
  map g (map2 f l1 l2) = map2 (fun a b => g (f a b)) l1 l2.
Proof. unfold map2. rewrite map_map. reflexivity. Qed.

Lemma Forall2_same_length {A B : Type} (n : nat) (t1 : list (list A)) (t2 : list (list B)) :
  length t1 = length t2 ->
  Forall (fun r => length r = n) t1 ->
  Forall (fun r => length r = n) t2 ->
  Forall2 (fun r1 r2 => length r1 = length r2) t1 t2.
Proof.
  revert t2. induction t1 as [|r1 t1 IH]; intros [|r2 t2] Hlen H1 H2;
    try discriminate; constructor.
  - inversion H1; inversion H2; congruence.
  - apply IH; [now injection Hlen | now inversion H1 | now inversion H2].
Qed.

End Indexing.

Section Margin.
Local Open Scope R_scope.

Lemma margin_row_fused (f g h : R -> R) (l c : list R) :
  map2 Rplus (map2 Rmult l (map f c)) (map2 Rmult (map g l) (map h c))
  = map2 (fun a b => a * f b + g a * h b) l c.
Proof.
  revert c. induction l as [|a l IH]; intros [|b c]; try reflexivity.
  simpl map. rewrite !map2_cons. rewrite IH. reflexivity.
Qed.

Lemma margin_fused (f g h : R -> R) (ls cs : tensor2) :
  map2 (map2 Rplus) (map2 (map2 Rmult) ls (map (map f) cs))
                    (map2 (map2 Rmult) (map (map g) ls) (map (map h) cs))
  = map2 (map2 (fun a b => a * f b + g a * h b)) ls cs.
Proof.
  revert cs. induction ls as [|l ls IH]; intros [|c cs]; try reflexivity.
  simpl map. rewrite !map2_cons. rewrite IH, margin_row_fused. reflexivity.
Qed.

(** The sum of all entries of [map2 (map2 f)], by index. *)
Lemma rsum_map2_by_index (f : R -> R -> R) (a b : tensor2) (nc : nat) :
  length a = length b ->
  Forall (fun r => length r = nc) a ->
  Forall (fun r => length r = nc) b ->
  rsum (concat (map2 (map2 f) a b))
  = rsum (map (fun i => rsum (map (fun j => f (entry2 a i j) (entry2 b i j)) (seq 0 nc)))
              (seq 0 (length a))).
Proof.
  intros Hlen Ha Hb. rewrite rsum_concat, map_map2.
  rewrite (map2_as_seq _ [] [] a b Hlen).
  f_equal. apply map_ext_in. intros i Hi. apply in_seq in Hi.
  assert (Hra : length (nth i a []) = nc).
  { rewrite Forall_forall in Ha. apply Ha, nth_In. lia. }
  assert (Hrb : length (nth i b []) = nc).
  { rewrite Forall_forall in Hb. apply Hb, nth_In. lia. }
  rewrite (map2_as_seq f 0 0) by congruence.
  rewrite Hra. reflexivity.
Qed.

(** C2: [MarginLoss.forward] returns the sum over samples and classes of
    [label * relu(0.9 - score)^2 + 0.5 * (1 - label) * relu(score - 0.1)^2],
    plus 0.0005 times the summed squared error between reconstructions and
    images, all divided by the batch size [images.size(0)].  The labels and
    scores have one row of [nc] entries per image, and a reconstruction has
    as many entries as an image. *)
Theorem MarginLoss_forward_joint_loss
    (images : tensor4) (labels classes reconstructions : tensor2) (nc npix : nat) :
  length labels = length images ->
  length classes = length images ->
  length reconstructions = length images ->
  Forall (fun r => length r = nc) labels ->
  Forall (fun r => length r = nc) classes ->
  Forall (fun r => length r = npix) reconstructions ->
  Forall (fun im => length (flatten3 im) = npix) images ->
  MarginLoss_forward images labels classes reconstructions
  = checked_div
      (margin_formula labels classes (length images) nc
       + 5 / 10000 * squared_error_formula images reconstructions (length images) npix)
      (INR (length images)).
Proof.
  intros Hl Hc Hr Hlab Hcla Hrec Himg.
  unfold MarginLoss_forward. f_equal. f_equal.
  - rewrite (margin_fused (fun c => relu (9 / 10 - c) ^ 2)
                          (fun l => 5 / 10 * (1 - l))
                          (fun c => relu (c - 1 / 10) ^ 2)).
    rewrite (rsum_map2_by_index _ labels classes nc) by congruence.
    unfold margin_formula. rewrite Hl. reflexivity.
  - f_equal. unfold mse_loss_sum.
    assert (Hflat : Forall (fun r => length r = npix) (map flatten3 images)).
    { apply Forall_forall. intros r Hin. apply in_map_iff in Hin.
      destruct Hin as [im [<- Him]]. rewrite Forall_forall in Himg. now apply Himg. }
    rewrite map2_concat
      by (apply (Forall2_same_length npix); [now rewrite length_map | assumption | assumption]).
    rewrite (rsum_map2_by_index _ reconstructions (map flatten3 images) npix)
      by (try assumption; now rewrite length_map).
    unfold squared_error_formula. rewrite Hr.
    f_equal. apply map_ext_in. intros i Hi. apply in_seq in Hi.
    f_equal. apply map_ext. intros p. unfold entry2.
    replace (nth i (map flatten3 images) []) with (flatten3 (nth i images []))
      by (symmetry; exact (map_nth flatten3 images [] i)).
    reflexivity.
Qed.

(** The theorem on a batch of one image of two pixels and two classes. *)
Lemma MarginLoss_forward_joint_loss_witness :
  MarginLoss_forward [[[[1; 0]]]] [[1; 0]] [[3 / 4; 1 / 4]] [[1 / 2; 1 / 2]]
  = checked_div
      (margin_formula [[1; 0]] [[3 / 4; 1 / 4]] 1 2
       + 5 / 10000 * squared_error_formula [[[[1; 0]]]] [[1 / 2; 1 / 2]] 1 2)
      (INR 1).
Proof.
  apply (MarginLoss_forward_joint_loss
           [[[[1; 0]]]] [[1; 0]] [[3 / 4; 1 / 4]] [[1 / 2; 1 / 2]] 2 2);
    try reflexivity; repeat constructor.
Defined.

End Margin.

(** ** The routing loop *)

Section RoutingLoop.
Local Open Scope Z_scope.

Variable n : Z.
Variable priors : option tensor4.

Lemma routing_body_events (v : routing_vars) (i : Z) :
  events (routing_body n priors v i)
  = events v
    ++ Iteration i (option_map softmax (logits v))
    :: (if i =? n - 1 then [] else [LogitUpdate i]).
Proof.
  unfold routing_body. destruct (i =? n - 1); simpl.
  - reflexivity.
  - rewrite <- app_assoc. reflexivity.
Qed.

Lemma routing_events_extend (l : list Z) (v : routing_vars) :
  exists more, events (fold_left (routing_body n priors) l v) = events v ++ more.
Proof.
  revert v. induction l as [|i l IH]; intros v; simpl.
  - exists []. now rewrite app_nil_r.
  - destruct (IH (routing_body n priors v i)) as [more Hmore].
    rewrite Hmore, routing_body_events, <- app_assoc. eauto.
Qed.

Lemma routing_iterations_counted (l : list Z) (v : routing_vars) :
  count_iterations (events (fold_left (routing_body n priors) l v))
  = count_iterations (events v) + Z.of_nat (length l).
Proof.
  revert v. induction l as [|i l IH]; intros v; simpl fold_left.
  - simpl. lia.
  - rewrite IH, routing_body_events. unfold count_iterations.
    rewrite filter_app, length_app. simpl filter.
    destruct (i =? n - 1); simpl length; lia.
Qed.

Lemma routing_updates_counted (l : list Z) (v : routing_vars) :
  count_logit_updates (events (fold_left (routing_body n priors) l v))
  = count_logit_updates (events v)
    + Z.of_nat (length (filter (fun i => negb (i =? n - 1)) l)).
Proof.
  revert v. induction l as [|i l IH]; intros v; simpl fold_left.
  - simpl. lia.
  - rewrite IH, routing_body_events. unfold count_logit_updates.
    rewrite filter_app, length_app. simpl filter.
    destruct (i =? n - 1); simpl; lia.
Qed.

Lemma routing_update_indices (l : list Z) (v : routing_vars) (j : Z) :
  In (LogitUpdate j) (events (fold_left (routing_body n priors) l v))
  <-> In (LogitUpdate j) (events v) \/ (In j l /\ j <> n - 1).
Proof.
  revert v. induction l as [|i l IH]; intros v; simpl fold_left.
  - simpl. tauto.
  - rewrite IH, routing_body_events, in_app_iff. simpl In.
    destruct (Z.eqb_spec i (n - 1)) as [Heq | Hne]; simpl In.
    + split.
      * intros [[H | [H | []]] | [H1 H2]]; try discriminate; auto.
      * intros [H | [[H | H] H2]]; auto. congruence.
    + split.
      * intros [[H | [H | [H | []]]] | [H1 H2]]; try discriminate; auto.
        injection H as ->. auto.
      * intros [H | [[H | H] H2]]; auto. subst j. left. right. right. now left.
Qed.

End RoutingLoop.

Section Range.
Local Open Scope Z_scope.

Lemma range_length (n : Z) : 0 <= n -> Z.of_nat (length (range n)) = n.
Proof.
  intros Hn. unfold range. rewrite length_map, length_seq. lia.
Qed.

Lemma range_In (n i : Z) : In i (range n) <-> 0 <= i < n.
Proof.
  unfold range. rewrite in_map_iff. split.
  - intros [k [<- Hk]]. apply in_seq in Hk. lia.
  - intros Hi. exists (Z.to_nat i). split; [lia|]. apply in_seq. lia.
Qed.

Lemma range_succ (n : Z) : 0 <= n -> range (n + 1) = range n ++ [n].
Proof.
  intros Hn. unfold range.
  replace (Z.to_nat (n + 1)) with (S (Z.to_nat n)) by lia.
  rewrite seq_S, map_app. simpl. f_equal. f_equal. lia.
Qed.

Lemma range_first (n : Z) : 1 <= n -> exists rest, range n = 0 :: rest.
Proof.
  intros Hn. unfold range.
  destruct (Z.to_nat n) as [|k] eqn:Hk; [lia|].
  simpl. eauto.
Qed.

Lemma range_all_but_last (n : Z) :
  1 <= n -> Z.of_nat (length (filter (fun i => negb (i =? n - 1)) (range n))) = n - 1.
Proof.
  intros Hn.
  assert (Hr : range n = range (n - 1) ++ [n - 1])
    by (rewrite <- range_succ by lia; f_equal; lia).
  rewrite Hr. rewrite filter_app, length_app. simpl filter.
  rewrite Z.eqb_refl. simpl.
  rewrite forallb_filter_id.
  - rewrite Nat.add_0_r. apply range_length. lia.
  - apply forallb_forall. intros i Hi. apply range_In in Hi.
    apply negb_true_iff, Z.eqb_neq. lia.
Qed.

End Range.

(** ** Tensors whose entries repeat *)

Section Repeats.
Local Open Scope R_scope.

Lemma map_const {A B : Type} (c : B) (l : list A) :
  map (fun _ => c) l = repeat c (length l).
Proof.
  induction l as [|a l IH]; simpl; [reflexivity | now rewrite IH].
Qed.

Lemma map2_repeat {A B C : Type} (f : A -> B -> C) (a : A) (b : B) (n : nat) :
  map2 f (repeat a n) (repeat b n) = repeat (f a b) n.
Proof.
  induction n as [|n IH]; [reflexivity|].
  simpl repeat. rewrite map2_cons, IH. reflexivity.
Qed.

Lemma map2_repeat_l {A B C : Type} (f : A -> B -> C) (a : A) (l : list B) :
  map2 f (repeat a (length l)) l = map (f a) l.
Proof.
  induction l as [|b l IH]; [reflexivity|].
  simpl. rewrite map2_cons, IH. reflexivity.
Qed.

Lemma mapM_repeat {A B : Type} (f : A -> option B) (a : A) (b : B) (n : nat) :
  f a = Some b -> mapM f (repeat a n) = Some (repeat b n).
Proof.
  intros H. induction n as [|n IH]; simpl; [reflexivity|].
  now rewrite H, IH.
Qed.

Lemma nth_repeat_lt {A : Type} (a d : A) (n j : nat) :
  (j < n)%nat -> nth j (repeat a n) d = a.
Proof.
  revert j. induction n as [|n IH]; intros j Hj; [lia|].
  destruct j as [|j]; simpl; [reflexivity | apply IH; lia].
Qed.

Lemma nth_zeros {A : Type} (row : list A) (j : nat) :
  nth j (map (fun _ => 0) row) 0 = 0.
Proof.
  revert j. induction row as [|a row IH]; intros [|j]; simpl; auto.
Qed.

(** Transposing equal rows gives one constant row per entry. *)
Lemma transpose_repeat {A : Type} (d : A) (row : list A) (n : nat) :
  transpose d (repeat row (S n)) = map (fun t => repeat t (S n)) row.
Proof.
  unfold transpose. simpl hd.
  rewrite (map_as_seq (fun t => repeat t (S n)) d row).
  apply map_ext. intros j. rewrite map_repeat. reflexivity.
Qed.

Lemma transpose_constant {A : Type} (d a : A) (r c : nat) :
  transpose d (repeat (repeat a c) (S r)) = repeat (repeat a (S r)) c.
Proof.
  rewrite transpose_repeat. apply map_repeat.
Qed.

Lemma transpose_empty_rows {A : Type} (d : A) (n : nat) :
  transpose d (repeat [] n) = [].
Proof.
  destruct n; reflexivity.
Qed.

(** The transpose of a matrix of zeros, whatever the lengths of its rows. *)
Lemma transpose_zeros (m : tensor2) :
  transpose 0 (map (map (fun _ => 0)) m)
  = repeat (repeat 0 (length m)) (length (hd [] m)).
Proof.
  unfold transpose.
  replace (length (hd [] (map (map (fun _ : R => 0)) m))) with (length (hd [] m))
    by (destruct m; simpl; [reflexivity | now rewrite length_map]).
  rewrite <- (length_seq (length (hd [] m)) 0) at 2.
  rewrite <- map_const. apply map_ext. intros j.
  rewrite map_map.
  rewrite (map_ext _ (fun _ => 0)) by (intros row; apply nth_zeros).
  apply map_const.
Qed.

Lemma F_softmax_constant (a : R) (n : nat) :
  F_softmax (repeat a (S n)) = repeat (1 / INR (S n)) (S n).
Proof.
  unfold F_softmax. rewrite !map_repeat, rsum_repeat.
  f_equal. pose proof (exp_pos a). pose proof (pos_INR n).
  rewrite S_INR. field. split; lra.
Qed.

Lemma Forall_repeat {A : Type} (P : A -> Prop) (a : A) (n : nat) :
  P a -> Forall P (repeat a n).
Proof.
  intros H. induction n; simpl; constructor; auto.
Qed.

(** With all logits zero the coupling coefficients of a cell are one over
    the number of its routes. *)
Lemma softmax_zeros_cell (m : tensor2) :
  Forall (Forall (fun a => a = 1 / INR (length m)))
         (transpose 0 (map F_softmax (transpose 0 (map (map (fun _ => 0)) m)))).
Proof.
  rewrite transpose_zeros.
  destruct (length m) as [|r].
  - rewrite map_repeat. change (F_softmax (repeat 0 0%nat)) with (@nil R).
    rewrite transpose_empty_rows. constructor.
  - rewrite map_repeat, F_softmax_constant.
    destruct (length (hd [] m)) as [|c]; [constructor|].
    rewrite transpose_repeat, map_repeat.
    apply Forall_repeat, Forall_repeat. reflexivity.
Qed.

Lemma softmax_zeros_uniform (t : tensor4) :
  uniform_over_routes t (softmax (zeros_like t)).
Proof.
  unfold uniform_over_routes, softmax, zeros_like.
  rewrite !map_map.
  induction t as [|tc t IHt]; simpl; constructor; [|exact IHt].
  clear IHt. rewrite !map_map.
  induction tc as [|m tc IHc]; simpl; constructor; [|exact IHc].
  apply softmax_zeros_cell.
Qed.

End Repeats.

(** ** Inputs that fit the route weights *)

Section FittingSizes.

Lemma has_size2_spec (m : tensor2) (r c : nat) :
  has_size2 m r c = true <-> length m = r /\ Forall (fun v => length v = c) m.
Proof.
  unfold has_size2. rewrite andb_true_iff, Nat.eqb_eq, forallb_forall, Forall_forall.
  split; intros [H1 H2]; (split; [exact H1|]); intros v Hv.
  - apply Nat.eqb_eq. now apply H2.
  - apply Nat.eqb_eq. now apply H2.
Qed.

Lemma has_size3_spec (t : tensor3) (b r c : nat) :
  has_size3 t b r c = true <-> length t = b /\ Forall (fun m => has_size2 m r c = true) t.
Proof.
  unfold has_size3. now rewrite andb_true_iff, Nat.eqb_eq, forallb_forall, Forall_forall.
Qed.

Lemma has_size4_spec (t : tensor4) (a b r c : nat) :
  has_size4 t a b r c = true <-> length t = a /\ Forall (fun u => has_size3 u b r c = true) t.
Proof.
  unfold has_size4. now rewrite andb_true_iff, Nat.eqb_eq, forallb_forall, Forall_forall.
Qed.

Lemma vecmat_length (v : tensor1) (m : tensor2) (nin nout : nat) :
  (1 <= nin)%nat -> has_size2 m nin nout = true -> length (vecmat v m) = nout.
Proof.
  intros Hin Hm. apply has_size2_spec in Hm. destruct Hm as [Hlen Hrows].
  unfold vecmat. rewrite length_map, length_seq.
  destruct m as [|row m]; [simpl in Hlen; lia|].
  simpl. now inversion Hrows.
Qed.

Lemma map2_length {A B C : Type} (f : A -> B -> C) (l1 : list A) (l2 : list B) :
  length (map2 f l1 l2) = Nat.min (length l1) (length l2).
Proof. unfold map2. now rewrite length_map, length_combine. Qed.

Lemma Forall_map2_both {A B C : Type} (P : A -> Prop) (Q : B -> Prop) (S : C -> Prop)
    (f : A -> B -> C) (l1 : list A) (l2 : list B) :
  Forall P l1 -> Forall Q l2 -> (forall a b, P a -> Q b -> S (f a b)) ->
  Forall S (map2 f l1 l2).
Proof.
  intros H1. revert l2. induction H1 as [|a l1 Ha _ IH]; intros l2 H2 Hf.
  - constructor.
  - destruct H2 as [|b l2 Hb H2]; [constructor|].
    rewrite map2_cons. constructor; [now apply Hf | now apply IH].
Qed.

(** On fitting sizes the prediction vectors have size (capsules, batch, routes, out). *)
Lemma compute_priors_size (self : CapsuleLayer) (x : tensor3) (nc nb nr nin nout : nat) :
  fits_routes self x nc nb nr nin nout = true ->
  has_size4 (compute_priors x (route_weights self)) nc nb nr nout = true.
Proof.
  unfold fits_routes. rewrite !andb_true_iff. intros [[Hw Hx] Hpos].
  cbn [forallb] in Hpos. rewrite !andb_true_iff, !Nat.leb_le in Hpos.
  destruct Hpos as (_ & _ & _ & Hin & _).
  apply has_size4_spec in Hw. destruct Hw as [Hwlen Hw].
  apply has_size3_spec in Hx. destruct Hx as [Hxlen Hx].
  unfold compute_priors. apply has_size4_spec. rewrite length_map.
  split; [exact Hwlen|].
  apply Forall_map. eapply Forall_impl; [|exact Hw]. intros wc Hwc. cbv beta.
  apply has_size3_spec in Hwc. destruct Hwc as [Hwclen Hwc].
  apply has_size3_spec. rewrite length_map. split; [exact Hxlen|].
  apply Forall_map. eapply Forall_impl; [|exact Hx]. intros xb Hxb. cbv beta.
  apply has_size2_spec in Hxb. destruct Hxb as [Hxblen _].
  apply has_size2_spec. rewrite map2_length, Hxblen, Hwclen. split; [lia|].
  apply (Forall_map2_both (fun _ => True) (fun m => has_size2 m nin nout = true)).
  - apply Forall_forall. auto.
  - exact Hwc.
  - intros v m _ Hm. now apply (vecmat_length v m nin nout).
Qed.

End FittingSizes.

(** ** The number of routing passes *)

Section RoutingCount.
Local Open Scope Z_scope.

(** C4, for [num_iterations] at least 1 and an input whose size fits the
    route weights: the prediction vectors have size (capsules, batch,
    routes, out) and [forward] runs the routing pass exactly [n] times; the
    logits start as zeros, so the first coupling coefficients are uniform
    over the routes; the logits are assigned exactly [n - 1] times, on
    every pass but the last; and [forward] returns. *)
Theorem routing_runs_n_passes (self : CapsuleLayer) (x : tensor3) (nc nb nr nin nout : nat) :
  1 <= num_iterations self ->
  fits_routes self x nc nb nr nin nout = true ->
  let n := num_iterations self in
  let priors := compute_priors x (route_weights self) in
  let ev := events (routing self (Some x)) in
  has_size4 priors nc nb nr nout = true
  /\ count_iterations ev = n
  /\ count_logit_updates ev = n - 1
  /\ (forall i, In (LogitUpdate i) ev <-> 0 <= i < n - 1)
  /\ hd_error ev = Some (Iteration 0 (Some (softmax (zeros_like priors))))
  /\ uniform_over_routes priors (softmax (zeros_like priors))
  /\ exists o, CapsuleLayer_forward_routing self (Some x) = Ok o.
Proof.
  intros Hn Hfits n priors ev.
  split; [exact (compute_priors_size self x nc nb nr nin nout Hfits)|].
  subst ev. unfold routing. simpl option_map.
  fold priors. fold n.
  split; [|split; [|split; [|split; [|split]]]].
  - rewrite routing_iterations_counted. simpl events.
    unfold count_iterations. simpl. apply range_length. lia.
  - rewrite routing_updates_counted. simpl events.
    unfold count_logit_updates. simpl. apply range_all_but_last. exact Hn.
  - intros i. rewrite routing_update_indices. simpl events.
    rewrite range_In. simpl In. lia.
  - destruct (range_first n Hn) as [rest Hrest]. rewrite Hrest. simpl fold_left.
    destruct (routing_events_extend n (Some priors) rest
                (routing_body n (Some priors)
                   {| logits := Some (zeros_like priors); outputs := None; events := [] |} 0))
      as [more Hmore].
    rewrite Hmore, routing_body_events. reflexivity.
  - apply softmax_zeros_uniform.
  - unfold CapsuleLayer_forward_routing, routing. simpl option_map.
    fold priors. fold n.
    destruct (range_first n Hn) as [rest Hrest]. rewrite Hrest. simpl fold_left.
    set (v1 := routing_body n (Some priors) _ 0).
    assert (Hbound : forall l v, outputs v <> None ->
              outputs (fold_left (routing_body n (Some priors)) l v) <> None).
    { induction l as [|i l IH]; intros v Hv; simpl; [exact Hv|].
      apply IH. unfold routing_body. destruct (negb (i =? n - 1)); discriminate. }
    specialize (Hbound rest v1).
    destruct (outputs (fold_left (routing_body n (Some priors)) rest v1)) as [o|].
    + eauto.
    + exfalso. apply Hbound; [|reflexivity].
      unfold v1, routing_body. destruct (negb (0 =? n - 1)); discriminate.
Qed.

End RoutingCount.

(** ** Routing when all routes carry the same prediction *)

Section EqualRoutes.
Local Open Scope R_scope.

Variables nc nb nr : nat.
Variable p : tensor1.
Hypothesis p_positive : 0 < norm p.

Local Abbreviation routes := (S nr).
Local Abbreviation equal_priors := (equal_priors nc nb nr p).
Local Abbreviation equal_logits := (equal_logits nc nb nr p).
Local Abbreviation shared := (shared nc nb).
Local Abbreviation summed_squashes := (summed_squashes nr p).

Lemma p_not_empty : exists n, length p = S n.
Proof.
  destruct p as [|a q] eqn:Hp.
  - exfalso. subst p. unfold norm in p_positive. simpl in p_positive.
    rewrite sqrt_0 in p_positive. lra.
  - simpl. eauto.
Qed.

Lemma routes_positive : 0 < INR routes.
Proof. rewrite S_INR. pose proof (pos_INR nr). lra. Qed.

Lemma softmax_equal_logits (a : R) :
  softmax (equal_logits a) = equal_logits (1 / INR routes).
Proof.
  unfold softmax, equal_logits. destruct p_not_empty as [k Hk]. rewrite Hk.
  rewrite !map_repeat.
  rewrite transpose_constant, map_repeat, F_softmax_constant, transpose_constant.
  reflexivity.
Qed.

Lemma mul4_equal (u : R) :
  mul4 (equal_logits u) equal_priors
  = repeat (repeat (repeat (map (fun t => u * t) p) routes) nb) nc.
Proof.
  unfold mul4, equal_logits, equal_priors.
  rewrite !map2_repeat, map2_repeat_l. reflexivity.
Qed.

Lemma share_positive : 0 < norm (map (fun t => 1 / INR routes * t) p).
Proof.
  pose proof routes_positive as Hr.
  assert (Hu : 0 < 1 / INR routes) by (apply Rdiv_lt_0_compat; lra).
  rewrite norm_scale by lra. nra.
Qed.

Lemma squash_equal (v : tensor1) :
  0 < norm v ->
  squash_vector4 (repeat (repeat (repeat v routes) nb) nc)
  = Some (repeat (repeat (repeat (squash_formula v) routes) nb) nc).
Proof.
  intros Hv. unfold squash_vector4, squash_vector3, squash_vector2.
  repeat apply mapM_repeat. apply squash_vector_defined, Hv.
Qed.

Lemma sum_dim2_equal (q : tensor1) :
  sum_dim2 (repeat (repeat (repeat q routes) nb) nc)
  = shared (map (fun t => INR routes * t) q).
Proof.
  unfold sum_dim2, shared. rewrite !map_repeat.
  rewrite transpose_repeat, map_map.
  do 2 f_equal. apply map_ext. intros t. apply rsum_repeat.
Qed.

Lemma agreement_equal (o : tensor1) :
  agreement equal_priors (shared o)
  = repeat (repeat (repeat (rsum (map2 Rmult p o)) routes) nb) nc.
Proof.
  unfold agreement, equal_priors, shared.
  rewrite !map2_repeat, map_repeat. reflexivity.
Qed.

Lemma add_delta_equal (a d : R) :
  add_delta (equal_logits a) (repeat (repeat (repeat d routes) nb) nc)
  = equal_logits (a + d).
Proof.
  unfold add_delta, equal_logits.
  rewrite !map2_repeat, map_repeat. reflexivity.
Qed.

(** One pass keeps the logits equal and binds [outputs] to the sum of the
    squashed shares. *)
Lemma routing_body_equal (n i : Z) (a : R) (o : option (option tensor3))
    (ev : list routing_event) :
  exists a',
    routing_body n (Some equal_priors)
      {| logits := Some (equal_logits a); outputs := o; events := ev |} i
    = {| logits := Some (equal_logits a');
         outputs := Some (Some (shared summed_squashes));
         events := ev ++ Iteration i (Some (equal_logits (1 / INR routes)))
                      :: (if (i =? n - 1)%Z then [] else [LogitUpdate i]) |}.
Proof.
  unfold routing_body. simpl logits. simpl option_map. simpl events.
  rewrite softmax_equal_logits. cbn [obind].
  rewrite mul4_equal, (squash_equal _ share_positive). cbn [obind].
  rewrite sum_dim2_equal. fold summed_squashes.
  destruct (i =? n - 1)%Z; simpl negb; cbv iota.
  - exists a. reflexivity.
  - rewrite agreement_equal, add_delta_equal, <- app_assoc. eauto.
Qed.

Lemma routing_fold_equal (n : Z) (l : list Z) (a : R) (ev : list routing_event) :
  l <> [] ->
  forall o,
  exists a' ev',
    fold_left (routing_body n (Some equal_priors)) l
      {| logits := Some (equal_logits a); outputs := o; events := ev |}
    = {| logits := Some (equal_logits a');
         outputs := Some (Some (shared summed_squashes));
         events := ev' |}
    /\ (forall i pr, In (Iteration i pr) ev' ->
          In (Iteration i pr) ev \/ pr = Some (equal_logits (1 / INR routes))).
Proof.
  revert a ev. induction l as [|i l IH]; intros a ev Hne o; [contradiction|].
  simpl fold_left.
  destruct (routing_body_equal n i a o ev) as [a1 H1]. rewrite H1.
  set (ev1 := ev ++ Iteration i (Some (equal_logits (1 / INR routes)))
                 :: (if (i =? n - 1)%Z then [] else [LogitUpdate i])).
  assert (Hev1 : forall k pr, In (Iteration k pr) ev1 ->
            In (Iteration k pr) ev \/ pr = Some (equal_logits (1 / INR routes))).
  { intros k pr Hin. apply in_app_or in Hin. destruct Hin as [Hin | Hin]; [now left|].
    right. destruct Hin as [Hin | Hin]; [congruence|].
    destruct (i =? n - 1)%Z; [contradiction|].
    destruct Hin as [Hin | []]. discriminate. }
  destruct l as [|j l].
  - simpl. exists a1, ev1. split; [reflexivity | exact Hev1].
  - destruct (IH a1 ev1 ltac:(discriminate) (Some (Some (shared summed_squashes))))
      as [a2 [ev2 [H2 Hev2]]].
    exists a2, ev2. split; [exact H2|].
    intros k pr Hin. destruct (Hev2 k pr Hin) as [Hold | Hnew]; [|now right].
    exact (Hev1 k pr Hold).
Qed.

(** The routing the architecture prescribes, on the same coupling
    coefficients: the squash of the sum of the shares, that is of [p]. *)
Lemma prescribed_equal :
  prescribed_outputs (equal_logits (1 / INR routes)) equal_priors
  = Some (shared (squash_formula p)).
Proof.
  unfold prescribed_outputs. rewrite mul4_equal, sum_dim2_equal.
  rewrite map_map.
  rewrite (map_ext _ (fun t => t)), map_id
    by (intros t; pose proof routes_positive; field; lra).
  unfold squash_vector3, squash_vector2, shared.
  repeat apply mapM_repeat. apply squash_vector_defined, p_positive.
Qed.

End EqualRoutes.

Section EqualRoutesLayer.
Local Open Scope R_scope.

(** A layer whose routes all carry the weights [w], on a batch whose
    input capsules all equal [xv]. *)
Lemma compute_priors_equal (nc nb nr : nat) (xv : tensor1) (w : tensor2) :
  compute_priors (repeat (repeat xv nr) nb) (repeat (repeat w nr) nc)
  = equal_priors nc nb (pred nr) (vecmat xv w) \/ nr = 0%nat.
Proof.
  destruct nr as [|k]; [now right|]. left.
  unfold compute_priors, equal_priors. simpl pred.
  rewrite !map_repeat, map2_repeat. reflexivity.
Qed.

Lemma forward_equal_routes (self : CapsuleLayer) (nc nb nr : nat) (xv : tensor1) (w : tensor2) :
  (1 <= num_iterations self)%Z ->
  route_weights self = repeat (repeat w (S nr)) nc ->
  0 < norm (vecmat xv w) ->
  let x := repeat (repeat xv (S nr)) nb in
  CapsuleLayer_forward_routing self (Some x)
  = Ok (Some (shared nc nb (summed_squashes nr (vecmat xv w))))
  /\ forall i pr, In (Iteration i pr) (events (routing self (Some x))) ->
       pr = Some (equal_logits nc nb nr (vecmat xv w) (1 / INR (S nr))).
Proof.
  intros Hn Hw Hp x. unfold CapsuleLayer_forward_routing, routing.
  simpl option_map. rewrite Hw. subst x.
  destruct (compute_priors_equal nc nb (S nr) xv w) as [Hpr | Hz]; [|discriminate].
  rewrite Hpr. simpl pred.
  assert (Hz : zeros_like (equal_priors nc nb nr (vecmat xv w))
               = equal_logits nc nb nr (vecmat xv w) 0).
  { unfold zeros_like, equal_priors, equal_logits.
    rewrite !map_repeat, map_const. reflexivity. }
  rewrite Hz.
  assert (Hne : range (num_iterations self) <> []).
  { destruct (range_first _ Hn) as [rest ->]. discriminate. }
  destruct (routing_fold_equal nc nb nr (vecmat xv w) Hp (num_iterations self)
              (range (num_iterations self)) 0 [] Hne None) as [a' [ev' [Hfold Hev]]].
  rewrite Hfold. simpl. split; [reflexivity|].
  intros i pr Hin. destruct (Hev i pr Hin) as [[] | H]. exact H.
Qed.

End EqualRoutesLayer.

(** ** The routing of a layer with two equal routes *)

Section TwoRoutes.
Local Open Scope R_scope.

Lemma norm_singleton (a : R) : 0 <= a -> norm [a] = a.
Proof.
  intros Ha. unfold norm. simpl map. simpl rsum.
  rewrite Rplus_0_r. apply sqrt_pow2, Ha.
Qed.

Lemma two_route_prior : vecmat [2] [[1]] = [2].
Proof. unfold vecmat. simpl. f_equal. lra. Qed.

Lemma two_route_sum : summed_squashes 1 [2] = [1].
Proof.
  unfold summed_squashes, squash_formula. simpl map.
  replace (1 / INR 2 * 2) with 1 by (simpl; field).
  rewrite norm_singleton by lra. f_equal. simpl. field.
Qed.

Lemma two_route_prescribed : squash_formula [2] = [4 / 5].
Proof.
  unfold squash_formula. simpl map. rewrite norm_singleton by lra. f_equal. field.
Qed.

(** C1 at [two_route_layer] and [two_route_input]: in every pass the
    coupling coefficients are 1/2 on each route; [forward] returns the sum
    of the squashed weighted predictions, the vector (1), whereas the
    squash of the weighted sum of the predictions is (4/5). *)
Theorem routing_squashes_before_summing :
  let priors := compute_priors two_route_input (route_weights two_route_layer) in
  let coupling := [[[[1 / 2]; [1 / 2]]]] in
  CapsuleLayer_forward_routing two_route_layer (Some two_route_input) = Ok (Some [[[1]]])
  /\ (forall i pr, In (Iteration i pr) (events (routing two_route_layer (Some two_route_input)))
        -> pr = Some coupling)
  /\ prescribed_outputs coupling priors = Some [[[4 / 5]]]
  /\ [[[1]]] <> [[[4 / 5]]].
Proof.
  intros priors coupling.
  assert (H2 : 0 < norm (vecmat [2] [[1]])).
  { rewrite two_route_prior, norm_singleton; lra. }
  destruct (forward_equal_routes two_route_layer 1 1 1 [2] [[1]]
              ltac:(simpl; lia) eq_refl H2) as [Hfwd Hev].
  rewrite two_route_prior in Hfwd, Hev. rewrite two_route_sum in Hfwd.
  assert (Hc : equal_logits 1 1 1 [2] (1 / INR 2) = coupling).
  { unfold equal_logits, coupling. simpl.
    replace (1 / (1 + 1)) with (1 / 2) by field. reflexivity. }
  rewrite Hc in Hev.
  split; [exact Hfwd|]. split; [exact Hev|]. split.
  - pose proof (prescribed_equal 1 1 1 [2] ltac:(rewrite norm_singleton; lra)) as Hp.
    rewrite Hc, two_route_prescribed in Hp.
    subst priors.
    change (compute_priors two_route_input (route_weights two_route_layer))
      with [[[vecmat [2] [[1]]; vecmat [2] [[1]]]]].
    rewrite two_route_prior. exact Hp.
  - intros H. injection H as H. lra.
Qed.

(** The count of passes at the default [num_iterations=3]. *)
Lemma routing_runs_n_passes_witness :
  count_iterations (events (routing two_route_layer (Some two_route_input))) = 3%Z
  /\ count_logit_updates (events (routing two_route_layer (Some two_route_input))) = 2%Z.
Proof.
  destruct (routing_runs_n_passes two_route_layer two_route_input 1 1 2 1 1
              ltac:(simpl; lia) eq_refl)
    as [_ [Hit [Hup _]]].
  split; [exact Hit | exact Hup].
Defined.

(** With [num_iterations=0] the loop body never runs: the logits are
    assigned 0 times, not [n - 1 = -1] times, and [return outputs] finds
    the name unbound. *)
Lemma routing_without_pass :
  count_logit_updates (events (routing no_pass_layer (Some two_route_input)))
  <> (num_iterations no_pass_layer - 1)%Z
  /\ CapsuleLayer_forward_routing no_pass_layer (Some two_route_input)
     = Raise UnboundLocalError.
Proof.
  split.
  - unfold routing, count_logit_updates. simpl. discriminate.
  - reflexivity.
Qed.

End TwoRoutes.

(** ** Sizes through the network *)

Section Sizes.
Local Open Scope Z_scope.
Import Sz.

Local Arguments Z.eqb : simpl never.
Local Arguments Z.mul : simpl never.
Local Arguments Z.div : simpl never.
Local Arguments Z.modulo : simpl never.

Ltac decide_eqb :=
  match goal with
  | |- context [?a =? ?b] => destruct (Z.eqb_spec a b); [try lia | try lia]
  end.
Ltac sizes := repeat (simpl; rewrite ?Z.eqb_refl; try decide_eqb); try reflexivity; try congruence.


Lemma view_rows (s : size) (c : Z) (k : Z) :
  0 < c -> numel s = k * c -> view s [-1; c] = Ok [k; c].
Proof.
  intros Hc Hs. unfold view. simpl filter.
  destruct (Z.eqb_spec c (-1)) as [Heq | Hne]; [lia|]. simpl.
  rewrite Z.mul_1_r, Hs, Z.mod_mul by lia.
  destruct (Z.eqb_spec c 0); [lia|]. simpl.
  rewrite Z.div_mul by lia.
  destruct (Z.eqb_spec c (-1)); [lia | reflexivity].
Qed.

Lemma view_same (s : size) (args : list Z) :
  Forall (fun a => 0 <= a) args -> numel args = numel s -> view s args = Ok args.
Proof.
  intros Hpos Hnum. unfold view.
  replace (filter (fun a => a =? -1) args) with (@nil Z).
  - simpl. rewrite Hnum, Z.eqb_refl. reflexivity.
  - symmetry. clear Hnum. induction Hpos as [|a l Ha _ IH]; [reflexivity|].
    simpl. destruct (Z.eqb_spec a (-1)); [lia | exact IH].
Qed.

Lemma view_per_sample (s : size) (b k : Z) (tail : list Z) :
  1 <= b -> numel s = b * k -> tail = [] \/ tail = [1] ->
  view s (b :: -1 :: tail) = Ok (b :: k :: tail).
Proof.
  intros Hb Hs Htail. unfold view.
  assert (Hb1 : (b =? -1) = false) by (apply Z.eqb_neq; lia).
  destruct Htail as [-> | ->]; simpl filter; rewrite Hb1; simpl;
    rewrite ?Z.mul_1_r, Hs;
    destruct (Z.eqb_spec b 0); try lia; simpl;
    rewrite Z.mul_comm, Z.mod_mul, Z.div_mul by lia; simpl;
    rewrite Hb1; reflexivity.
Qed.

Lemma squash_vector_size3 (b r c : Z) :
  squash_vector [b; r; c] (-1) = Ok [b; r; c].
Proof.
  unfold squash_vector, sum, set_nth, broadcast. sizes.
Qed.

Lemma squash_vector_size5 (a b r c : Z) :
  squash_vector [a; b; r; 1; c] (-1) = Ok [a; b; r; 1; c].
Proof.
  unfold squash_vector, sum, set_nth, broadcast. sizes.
Qed.



Lemma primary_capsules_size (self : CapsuleNet) (b : Z) :
  CapsuleNet_init = Ok self -> 1 <= b ->
  CapsuleLayer_forward (primary_capsules self) [b; 256; 20; 20] = Ok [b; 1152; 8].
Proof.
  intros Hinit Hb. injection Hinit as <-.
  unfold CapsuleLayer_forward. simpl.
  rewrite (view_per_sample [b; 32; 6; 6] b 1152 [1]) by (auto; unfold numel; simpl; lia).
  unfold cat_last. sizes.
  apply squash_vector_size3.
Qed.

Lemma softmax_size5 (b : Z) :
  1 <= b -> softmax [10; b; 1152; 1; 16] 2 = Ok [10; b; 1152; 1; 16].
Proof.
  intros Hb. unfold softmax, transpose, size_at, set_nth. simpl.
  rewrite (view_rows [10; b; 16; 1; 1152] 1152 (160 * b)) by (unfold numel; simpl; lia).
  unfold F_softmax. simpl.
  rewrite view_same; [reflexivity | repeat constructor; lia | unfold numel; simpl; lia].
Qed.

Lemma routing_step_size (b i : Z) (o : option size) :
  1 <= b ->
  routing_step 3 [10; b; 1152; 1; 16] (Ok ([10; b; 1152; 1; 16], o)) i
  = Ok ([10; b; 1152; 1; 16], Some [10; b; 1; 1; 16]).
Proof.
  intros Hb. unfold routing_step. simpl rbind. simpl fst.
  rewrite softmax_size5 by exact Hb. simpl rbind.
  unfold broadcast at 1. sizes.
  all: rewrite squash_vector_size5; unfold sum, set_nth, broadcast; sizes.
Qed.

Local Arguments routing_step : simpl never.

Lemma digit_capsules_size (self : CapsuleNet) (b : Z) :
  CapsuleNet_init = Ok self -> 1 <= b ->
  CapsuleLayer_forward (digit_capsules self) [b; 1152; 8] = Ok [10; b; 1; 1; 16].
Proof.
  intros Hinit Hb. injection Hinit as <-.
  unfold CapsuleLayer_forward. simpl.
  unfold matmul. sizes.
  all: rewrite !routing_step_size by lia; reflexivity.
Qed.

Lemma CapsuleNet_forward_sizes (b : Z) :
  2 <= b ->
  model [b; 1; 28; 28] (Some [b; 10]) = Ok ([b; 10], [b; 784])
  /\ model [b; 1; 28; 28] None = Ok ([b; 10], [b; 784]).
Proof.
  intros Hb. unfold model.
  destruct CapsuleNet_init as [self|e] eqn:Hinit; [|discriminate].
  cbn [rbind]. unfold CapsuleNet_forward.
  assert (Hc1 : Conv2d_forward (conv1 self) [b; 1; 28; 28] = Ok [b; 256; 20; 20])
    by (injection Hinit as <-; reflexivity).
  rewrite Hc1. cbn [rbind].
  rewrite (primary_capsules_size self b Hinit) by lia. cbn [rbind].
  rewrite (digit_capsules_size self b Hinit) by lia. cbn [rbind].
  assert (Hdec : decoder self = [Linear 160 512; ReLU; Linear 512 1024; ReLU;
                                  Linear 1024 784; Sigmoid])
    by (injection Hinit as <-; reflexivity).
  rewrite Hdec.
  assert (Hsq : squeeze [10; b; 1; 1; 16] = [10; b; 16]).
  { unfold squeeze. sizes. }
  rewrite Hsq.
  assert (Hview : view [b; 10; 16] [b; -1] = Ok [b; 160])
    by (apply view_per_sample; [lia | unfold numel; simpl; lia | now left]).
  split.
  - unfold transpose, set_nth, sum, F_softmax, index_s_s_N, broadcast, size_at. sizes.
    all: rewrite Hview; unfold Sequential_forward; sizes.
  - unfold transpose, set_nth, sum, F_softmax, max, sum, index_select0, eye, index_s_s_N, broadcast, size_at. sizes.
    all: rewrite Hview; unfold Sequential_forward; sizes.
Qed.


Lemma CapsuleNet_forward_sizes_given (self : CapsuleNet) (b : Z) :
  CapsuleNet_init = Ok self -> 2 <= b ->
  CapsuleNet_forward self [b; 1; 28; 28] (Some [b; 10]) = Ok ([b; 10], [b; 784]).
Proof.
  intros Hinit Hb. pose proof (proj1 (CapsuleNet_forward_sizes b Hb)) as H.
  unfold model in H. rewrite Hinit in H. exact H.
Qed.

Lemma MarginLoss_forward_sizes (b : Z) :
  MarginLoss_forward [b; 1; 28; 28] [b; 10] [b; 10] [b; 784] = Ok [1].
Proof.
  unfold MarginLoss_forward, broadcast, mse_loss, size_at.
  replace (numel [b; 784] =? numel [b; 1; 28; 28]) with true
    by (symmetry; apply Z.eqb_eq; unfold numel; simpl; lia).
  sizes.
Qed.

(** C10 at a batch of one image: [.squeeze()] drops the batch axis along
    with the two axes of size one, the transposed tensor has size (16, 10),
    and [forward] raises in both calling modes instead of returning sizes
    (1, 10) and (1, 784). *)
Theorem forward_single_image_raises :
  model [1; 1; 28; 28] (Some [1; 10]) = Raise RuntimeError
  /\ model [1; 1; 28; 28] None = Raise RuntimeError
  /\ squeeze [10; 1; 1; 1; 16] = [10; 16]
  /\ transpose [10; 16] 0 1 = Ok [16; 10]
  /\ broadcast [16; 10] [1; 10; 1] = Raise RuntimeError
  /\ max [16] 1 false = Raise RuntimeError.
Proof.
  repeat split; vm_compute; reflexivity.
Qed.

(** The topology built by [__init__], in the size reading. *)
Lemma CapsuleNet_init_topology :
  CapsuleNet_init
  = Ok {| conv1 := {| in_channels := 1; out_channels := 256; kernel_size := 9; stride := 1 |};
          primary_capsules :=
            {| num_routes := -1; num_iterations := 3; num_capsules := 8;
               route_weights := None;
               capsules := Some (repeat {| in_channels := 256; out_channels := 32;
                                           kernel_size := 9; stride := 2 |} 8) |};
          digit_capsules :=
            {| num_routes := 1152; num_iterations := 3; num_capsules := 10;
               route_weights := Some [10; 1152; 8; 16];
               capsules := None |};
          decoder := [Linear 160 512; ReLU; Linear 512 1024; ReLU; Linear 1024 784; Sigmoid] |}.
Proof. reflexivity. Qed.

End Sizes.

(** ** The network on the example parameters *)

Section ExampleNetwork.
Local Open Scope R_scope.

Lemma rsum_zero {A : Type} (f : A -> R) (l : list A) :
  (forall a, In a l -> f a = 0) -> rsum (map f l) = 0.
Proof.
  induction l as [|a l IH]; intros H; simpl; [reflexivity|].
  rewrite (H a (or_introl eq_refl)), IH; [lra|].
  intros b Hb. apply H. now right.
Qed.

Lemma zero_kernel_entry (k u v : nat) :
  nth v (nth u (repeat (repeat 0 k) k) []) 0 = 0.
Proof.
  destruct (Nat.lt_ge_cases u k) as [Hu | Hu].
  - rewrite nth_repeat_lt by exact Hu. apply nth_repeat.
  - rewrite (nth_overflow (repeat (repeat 0 k) k) []) by (now rewrite repeat_length).
    now destruct v.
Qed.

Lemma conv_at_zero_kernels (k s cin : nat) (b : R) (img : tensor3) (i j : nat) :
  conv_at k s (repeat (repeat (repeat 0 k) k) cin) b img i j = b.
Proof.
  unfold conv_at, map2.
  rewrite rsum_zero; [lra|].
  intros [wc xc] Hin. apply in_combine_l in Hin. apply repeat_spec in Hin. subst wc.
  simpl fst. simpl snd.
  apply rsum_zero. intros u _. apply rsum_zero. intros v _.
  rewrite zero_kernel_entry. lra.
Qed.

Lemma Conv2d_forward_zero_kernels (c : Conv2d) (cin : nat) (x : tensor4) :
  weight c = repeat (repeat (repeat (repeat 0 (kernel_size c)) (kernel_size c)) cin)
                    (length (bias c)) ->
  Conv2d_forward c x
  = map (fun img =>
           map (fun bo =>
                  repeat (repeat bo (conv_out (length (hd [] (hd [] img)))
                                              (kernel_size c) (stride c)))
                         (conv_out (length (hd [] img)) (kernel_size c) (stride c)))
               (bias c))
        x.
Proof.
  intros Hw. unfold Conv2d_forward. apply map_ext. intros img.
  rewrite Hw, map2_repeat_l. apply map_ext. intros bo.
  rewrite <- (length_seq (conv_out (length (hd [] img)) _ _) 0) at 2.
  rewrite <- map_const. apply map_ext. intros i.
  rewrite <- (length_seq (conv_out (length (hd [] (hd [] img))) _ _) 0) at 2.
  rewrite <- map_const. apply map_ext. intros j.
  apply conv_at_zero_kernels.
Qed.

Lemma concat_repeat {A : Type} (a : A) (n m : nat) :
  concat (repeat (repeat a m) n) = repeat a (n * m).
Proof.
  induction n as [|n IH]; [reflexivity|].
  simpl. rewrite IH, repeat_app. reflexivity.
Qed.

Lemma flatten3_constant (a : R) (c h w : nat) :
  flatten3 (repeat (repeat (repeat a w) h) c) = repeat a (c * (h * w)).
Proof.
  unfold flatten3. rewrite map_repeat, !concat_repeat. reflexivity.
Qed.

Lemma transpose_constant_rows {A : Type} (d : A) (bs : list A) (n : nat) :
  bs <> [] -> transpose d (map (fun t => repeat t n) bs) = repeat bs n.
Proof.
  intros Hne. destruct bs as [|b bs]; [contradiction|]. clear Hne.
  unfold transpose. simpl hd. rewrite repeat_length.
  rewrite <- (length_seq n 0) at 2. rewrite <- map_const.
  apply map_ext_in. intros j Hj. apply in_seq in Hj.
  rewrite map_map.
  rewrite (map_ext _ (fun t => t)) by (intros t; apply nth_repeat_lt; lia).
  apply map_id.
Qed.


Lemma norm_unit_first (a : R) (n : nat) : 0 <= a -> norm (a :: repeat 0 n) = a.
Proof.
  intros Ha. unfold norm. simpl map. simpl rsum.
  rewrite map_repeat, rsum_repeat.
  replace (a * (a * 1) + INR n * (0 * (0 * 1))) with (a ^ 2) by (simpl; ring).
  apply sqrt_pow2, Ha.
Qed.

Lemma squash_formula_unit_first (a : R) (n : nat) :
  0 < a ->
  squash_formula (a :: repeat 0 n) = (a ^ 2 / (1 + a ^ 2)) :: repeat 0 n.
Proof.
  intros Ha. unfold squash_formula. rewrite norm_unit_first by lra.
  simpl map. f_equal.
  - field. split; nra.
  - rewrite map_repeat. f_equal. field. split; nra.
Qed.

Lemma primary_capsules_example :
  CapsuleLayer_forward_capsules
    (primary_capsules (CapsuleNet_init example_parameters))
    (repeat (repeat (repeat (repeat 0 20%nat) 20%nat) 256%nat) 2%nat)
  = Some (repeat (repeat half_unit 1152%nat) 2%nat).
Proof.
  unfold CapsuleLayer_forward_capsules.
  change (capsules (primary_capsules (CapsuleNet_init example_parameters)))
    with (map (fun i => {| weight := zero_kernels 32 256;
                           bias := repeat (if (i =? 0)%Z then 1 else 0) 32%nat;
                           kernel_size := 9; stride := 2 |}) (range 8)).
  rewrite map_map.
  rewrite (map_ext _ (fun i => repeat (repeat (if (i =? 0)%Z then 1 else 0) 1152%nat) 2%nat)).
  2:{ intros i. rewrite (Conv2d_forward_zero_kernels _ 256) by reflexivity.
      rewrite !map_repeat. reflexivity. }
  change (map (fun i => repeat (repeat (if (i =? 0)%Z then 1 else 0) 1152%nat) 2%nat) (range 8))
    with (map (fun r => repeat r 2%nat) (map (fun b => repeat b 1152%nat) first_unit)).
  rewrite (transpose_constant_rows []) by discriminate.
  rewrite map_repeat.
  rewrite (transpose_constant_rows 0) by discriminate.
  unfold squash_vector3, squash_vector2.
  repeat apply mapM_repeat.
  change first_unit with (1 :: repeat 0 7).
  rewrite squash_vector_defined
    by (rewrite (norm_unit_first 1 7); lra).
  f_equal. rewrite (squash_formula_unit_first 1 7) by lra.
  unfold half_unit. simpl repeat. f_equal. field.
Qed.

Lemma INR_1152 : INR 1152 = 1152.
Proof. rewrite INR_IZR_INZ. reflexivity. Qed.


Lemma digit_prior_example : vecmat half_unit first_to_first = first_1152.
Proof.
  unfold vecmat, half_unit, first_to_first, first_1152. simpl.
  repeat (f_equal; try lra).
Qed.

Lemma map_first_rest {A B : Type} (f : A -> B) (a b : A) (n : nat) :
  map f (a :: repeat b n) = f a :: repeat (f b) n.
Proof. simpl. rewrite map_repeat. reflexivity. Qed.

Lemma summed_squashes_example :
  summed_squashes 1151 first_1152 = 576 :: repeat 0 15.
Proof.
  unfold summed_squashes, first_1152. rewrite INR_1152.
  rewrite map_first_rest.
  replace (1 / 1152 * 1152) with 1 by field.
  replace (1 / 1152 * 0) with 0 by field.
  rewrite (squash_formula_unit_first 1 15) by lra.
  rewrite map_first_rest. f_equal; [field|]. f_equal. ring.
Qed.

Lemma digit_outputs_example :
  digit_outputs (CapsuleNet_init example_parameters) black_images
  = Ok (Some (shared 10 2 (576 :: repeat 0 15))).
Proof.
  unfold digit_outputs.
  rewrite (Conv2d_forward_zero_kernels _ 1) by reflexivity.
  change (map _ black_images)
    with (repeat (repeat (repeat (repeat 0 20%nat) 20%nat) 256%nat) 2%nat) at 1.
  rewrite !map_repeat.
  replace (relu 0) with 0 by (unfold relu; rewrite Rmax_left; lra).
  rewrite primary_capsules_example.
  assert (Hpos : 0 < norm (vecmat half_unit first_to_first)).
  { rewrite digit_prior_example. unfold first_1152. rewrite norm_unit_first; lra. }
  destruct (forward_equal_routes (digit_capsules (CapsuleNet_init example_parameters))
              10 2 1151 half_unit first_to_first ltac:(simpl; lia) eq_refl Hpos)
    as [Hfwd _].
  rewrite Hfwd, digit_prior_example, summed_squashes_example. reflexivity.
Qed.

Lemma capsule_lengths_example :
  capsule_lengths (shared 10 2 (576 :: repeat 0 15)) = repeat (repeat 576 10%nat) 2%nat.
Proof.
  unfold capsule_lengths, shared.
  rewrite (transpose_constant [] (576 :: repeat 0 15) 9 2).
  rewrite !map_repeat, norm_unit_first by lra. reflexivity.
Qed.

Lemma scores_example :
  map F_softmax (repeat (repeat 576 10%nat) 2%nat) = repeat (repeat (1 / 10) 10%nat) 2%nat.
Proof.
  rewrite map_repeat, (F_softmax_constant 576 9). f_equal. f_equal.
  rewrite INR_IZR_INZ. reflexivity.
Qed.

Lemma CapsuleNet_forward_example :
  exists reconstructions,
    CapsuleNet_forward (CapsuleNet_init example_parameters) black_images (Some zero_labels)
    = Ok (Some (repeat (repeat (1 / 10) 10%nat) 2%nat, reconstructions)).
Proof.
  unfold CapsuleNet_forward.
  change (size4 black_images) with [2; 1; 28; 28]%Z.
  change (option_map size2 (Some zero_labels)) with (Some [2; 10]%Z).
  rewrite (proj1 (CapsuleNet_forward_sizes 2 ltac:(lia))). cbn [rbind].
  rewrite digit_outputs_example. cbn [rbind obind].
  fold (capsule_lengths (shared 10 2 (576 :: repeat 0 15))).
  rewrite capsule_lengths_example, scores_example.
  eexists. reflexivity.
Qed.


(** C3, as the code has it: whenever [forward] returns, the class scores
    are the softmax, over the classes of each sample, of the lengths of the
    output vectors of the digit capsules. *)
Theorem class_scores_are_softmax_of_lengths
    (self : CapsuleNet) (x : tensor4) (y : option tensor2) (scores reconstructions : tensor2) :
  CapsuleNet_forward self x y = Ok (Some (scores, reconstructions)) ->
  exists d, digit_outputs self x = Ok (Some d)
            /\ scores = map F_softmax (capsule_lengths d).
Proof.
  unfold CapsuleNet_forward. intros H.
  destruct (Sz.model (size4 x) (option_map size2 y)) as [sizes|e]; [|discriminate].
  cbn [rbind] in H.
  destruct (digit_outputs self x) as [[d|]|e]; cbn [rbind obind] in H; try discriminate.
  exists d. split; [reflexivity|].
  injection H as Hs _. symmetry. exact Hs.
Qed.

(** The theorem on the example network and two black images. *)
Lemma class_scores_are_softmax_of_lengths_witness :
  exists d, digit_outputs (CapsuleNet_init example_parameters) black_images = Ok (Some d)
            /\ repeat (repeat (1 / 10) 10%nat) 2%nat = map F_softmax (capsule_lengths d).
Proof.
  destruct CapsuleNet_forward_example as [reconstructions H].
  exact (class_scores_are_softmax_of_lengths _ _ _ _ _ H).
Defined.

(** C3 as stated fails: on the example network and two black images every
    digit capsule has length 576 and every class score is 1/10. *)
Lemma class_scores_differ_from_lengths :
  exists scores reconstructions d,
    CapsuleNet_forward (CapsuleNet_init example_parameters) black_images (Some zero_labels)
    = Ok (Some (scores, reconstructions))
    /\ digit_outputs (CapsuleNet_init example_parameters) black_images = Ok (Some d)
    /\ scores = repeat (repeat (1 / 10) 10%nat) 2%nat
    /\ capsule_lengths d = repeat (repeat 576 10%nat) 2%nat
    /\ scores <> capsule_lengths d.
Proof.
  destruct CapsuleNet_forward_example as [reconstructions H].
  exists (repeat (repeat (1 / 10) 10%nat) 2%nat), reconstructions,
         (shared 10 2 (576 :: repeat 0 15)).
  split; [exact H|]. split; [exact digit_outputs_example|].
  split; [reflexivity|]. split; [exact capsule_lengths_example|].
  rewrite capsule_lengths_example. simpl. intros Heq.
  injection Heq as Heq _. lra.
Qed.

End ExampleNetwork.

(** ** The topology *)

Section Topology.
Local Open Scope R_scope.

Lemma sigmoid_range (x : R) : 0 <= sigmoid x <= 1.
Proof.
  unfold sigmoid. pose proof (exp_pos (- x)) as He.
  assert (Hinv : 0 < 1 / (1 + exp (- x))) by (apply Rdiv_lt_0_compat; lra).
  split; [lra|].
  apply (Rmult_le_reg_r (1 + exp (- x))); [lra|].
  unfold Rdiv. rewrite Rmult_assoc, Rinv_l by lra. lra.
Qed.

(** C5: the topology is the one [__init__] builds, whatever the input and
    the values of the parameters: a convolution of 1 to 256 channels with
    kernel 9 and stride 1; 8 primary-capsule convolutions of 256 to 32
    channels with kernel 9 and stride 2; 10 digit capsules routing over
    32*6*6 = 1152 input capsules from 8 to 16 channels; a decoder of linear
    layers 160 to 512 to 1024 to 784 that ends in a sigmoid, so that every
    entry of a reconstruction lies between 0 and 1. *)
Theorem CapsuleNet_fixed_topology (p : parameters) (x : tensor2) :
  Sz.CapsuleNet_init
  = Ok {| Sz.conv1 := {| Sz.in_channels := 1; Sz.out_channels := 256;
                         Sz.kernel_size := 9; Sz.stride := 1 |};
          Sz.primary_capsules :=
            {| Sz.num_routes := -1; Sz.num_iterations := 3; Sz.num_capsules := 8;
               Sz.route_weights := None;
               Sz.capsules := Some (repeat {| Sz.in_channels := 256; Sz.out_channels := 32;
                                              Sz.kernel_size := 9; Sz.stride := 2 |} 8) |};
          Sz.digit_capsules :=
            {| Sz.num_routes := 1152; Sz.num_iterations := 3; Sz.num_capsules := 10;
               Sz.route_weights := Some [10; 1152; 8; 16]%Z;
               Sz.capsules := None |};
          Sz.decoder := [Sz.Linear 160 512; Sz.ReLU; Sz.Linear 512 1024; Sz.ReLU;
                         Sz.Linear 1024 784; Sz.Sigmoid] |}
  /\ (32 * 6 * 6 = 1152)%Z
  /\ (kernel_size (conv1 (CapsuleNet_init p)), stride (conv1 (CapsuleNet_init p)))
     = (9%nat, 1%nat)
  /\ map (fun c => (kernel_size c, stride c)) (capsules (primary_capsules (CapsuleNet_init p)))
     = repeat (9%nat, 2%nat) 8
  /\ (num_capsules (digit_capsules (CapsuleNet_init p)),
      num_routes (digit_capsules (CapsuleNet_init p)),
      num_iterations (digit_capsules (CapsuleNet_init p))) = (10, 1152, 3)%Z
  /\ decoder (CapsuleNet_init p)
     = [LinearL (fc1 p); ReLU; LinearL (fc2 p); ReLU; LinearL (fc3 p); Sigmoid]
  /\ Forall (Forall (fun r => 0 <= r <= 1))
            (Sequential_forward (decoder (CapsuleNet_init p)) x).
Proof.
  split; [exact CapsuleNet_init_topology|].
  repeat (split; [reflexivity|]).
  change (Sequential_forward (decoder (CapsuleNet_init p)) x)
    with (map (map sigmoid)
            (Layer_forward (LinearL (fc3 p))
               (Layer_forward ReLU
                  (Layer_forward (LinearL (fc2 p))
                     (Layer_forward ReLU (Layer_forward (LinearL (fc1 p)) x)))))).
  apply Forall_map, Forall_forall. intros row _.
  apply Forall_map, Forall_forall. intros a _.
  apply sigmoid_range.
Qed.

End Topology.

(** ** The script *)

Section ScriptFacts.
Local Open Scope Z_scope.
Import Script.
Local Open Scope script_scope.

Section Emits.

Variable P : event -> Prop.

Local Abbreviation emits_only := (emits_only P).


Lemma emits_ret {A : Type} (a : A) : emits_only (ret a).
Proof. intros g. exists []. split; [reflexivity | constructor]. Qed.

Lemma emits_lift {A : Type} (r : result A) : emits_only (lift r).
Proof. intros g. exists []. split; [reflexivity | constructor]. Qed.

Lemma emits_load {A : Type} (name : globals -> option A) : emits_only (load name).
Proof.
  intros g. exists []. unfold load. destruct (name g); split; try reflexivity; constructor.
Qed.

Lemma emits_set_reconstructions (s : Sz.size) : emits_only (set_reconstructions s).
Proof. intros g. exists []. split; [reflexivity | constructor]. Qed.

Lemma emits_set_correct (v : pyval) : emits_only (set_correct v).
Proof. intros g. exists []. split; [reflexivity | constructor]. Qed.

Lemma emits_set_test_loss (v : pyval) : emits_only (set_test_loss v).
Proof. intros g. exists []. split; [reflexivity | constructor]. Qed.

Lemma emits_emit (e : event) : P e -> emits_only (emit e).
Proof. intros He g. exists [e]. split; [reflexivity | now constructor]. Qed.

Lemma emits_bind {A B : Type} (m : M A) (k : A -> M B) :
  emits_only m -> (forall a, emits_only (k a)) -> emits_only (bind m k).
Proof.
  intros Hm Hk g. unfold bind. destruct (Hm g) as [evs [Hlog Hall]].
  destruct (m g) as [[a | e] g'] eqn:Hmg; simpl in Hlog.
  - destruct (Hk a g') as [evs' [Hlog' Hall']].
    exists (evs' ++ evs). rewrite Hlog', Hlog, app_assoc. split; [reflexivity|].
    apply Forall_app. now split.
  - exists evs. simpl. now split.
Qed.

Lemma emits_for_each {A : Type} (l : list A) (body : A -> M unit) :
  (forall a, emits_only (body a)) -> emits_only (for_each l body).
Proof.
  intros Hbody. induction l as [|a l IH]; simpl.
  - apply emits_ret.
  - apply emits_bind; [apply Hbody | intros _; exact IH].
Qed.

End Emits.

Ltac emits :=
  repeat first
    [ apply emits_bind; [|intros ?]
    | apply emits_for_each; intros ?
    | apply emits_ret
    | apply emits_lift
    | apply emits_load
    | apply emits_set_reconstructions
    | apply emits_set_correct
    | apply emits_set_test_loss
    | apply emits_emit ].

Lemma train_batch_emits (P : event -> Prop) (model : Sz.CapsuleNet) (item : Z * Z) :
  (forall e, e <> PrintTest -> file_system e = false -> P e) ->
  emits_only P (train_batch model item).
Proof.
  intros HP. unfold train_batch. emits; apply HP; try discriminate; reflexivity.
Qed.

Lemma test_batch_emits (P : event -> Prop) (model : Sz.CapsuleNet) (item : Z * Z) :
  (forall e, e <> PrintTest -> file_system e = false -> P e) ->
  emits_only P (test_batch model item).
Proof.
  intros HP. unfold test_batch. emits; apply HP; try discriminate; reflexivity.
Qed.

Section QuietFail.

Variable P : event -> Prop.

Local Abbreviation raises_after := (raises_after P).


Lemma raises_at_once {A B : Type} (e : exn) (k : A -> M B) :
  raises_after (bind (lift (Raise e)) k).
Proof.
  intros g. split; [exists e; reflexivity|].
  exists []. split; [reflexivity | constructor].
Qed.

Lemma raises_later {A B : Type} (m : M A) (k : A -> M B) :
  emits_only P m -> (forall a, raises_after (k a)) -> raises_after (bind m k).
Proof.
  intros Hm Hk g. unfold bind. destruct (Hm g) as [evs [Hlog Hall]].
  destruct (m g) as [[a | e] g'] eqn:Hmg; simpl in Hlog.
  - destruct (Hk a g') as [[e He] [evs' [Hlog' Hall']]].
    split; [exists e; exact He|].
    exists (evs' ++ evs). rewrite Hlog', Hlog, app_assoc. split; [reflexivity|].
    apply Forall_app. now split.
  - split; [exists e; reflexivity|]. exists evs. simpl. now split.
Qed.

Lemma raises_first {A B : Type} (m : M A) (k : A -> M B) :
  raises_after m -> raises_after (bind m k).
Proof.
  intros Hm g. unfold bind. destruct (Hm g) as [[e He] [evs [Hlog Hall]]].
  destruct (m g) as [[a | e'] g'] eqn:Hmg; simpl in He, Hlog; [discriminate|].
  split; [exists e'; reflexivity|]. exists evs. simpl. now split.
Qed.

End QuietFail.

Lemma epoch_raises (P : event -> Prop) (model : Sz.CapsuleNet) (n_train n_test e : Z) :
  (forall ev, ev <> PrintTest -> file_system ev = false -> P ev) ->
  raises_after P (epoch model n_train n_test e).
Proof.
  intros HP. unfold epoch.
  apply raises_later; [apply emits_emit, HP; [discriminate | reflexivity] | intros _].
  apply raises_later; [apply emits_for_each; intros it; now apply train_batch_emits | intros _].
  apply raises_later; [apply emits_for_each; intros it; now apply test_batch_emits | intros _].
  do 8 (apply raises_later; [emits | intros ?]).
  apply raises_at_once.
Qed.


Lemma script_after_setup (n_train n_test : Z) :
  exists model,
    Sz.CapsuleNet_init = Ok model
    /\ script n_train n_test start
       = for_each (range 10) (epoch model n_train n_test)
           {| reconstructions := None; correct := None; test_loss := None;
              log := setup_log |}.
Proof.
  eexists. split; reflexivity.
Qed.

Lemma script_raises (P : event -> Prop) (n_train n_test : Z) :
  (forall ev, ev <> PrintTest -> file_system ev = false -> P ev) ->
  (exists e, fst (run n_train n_test) = Raise e)
  /\ exists rest, snd (run n_train n_test)
                  = [ToDevice; Download "/tmp" true; Download "/tmp" false] ++ rest
                  /\ Forall P rest.
Proof.
  intros HP. unfold run. cbn [fst snd].
  destruct (script_after_setup n_train n_test) as [model [_ ->]].
  change (range 10) with (0 :: map Z.of_nat (seq 1 9)). cbn [for_each].
  destruct (raises_first P _ (fun _ => for_each (map Z.of_nat (seq 1 9)) (epoch model n_train n_test))
              (epoch_raises P model n_train n_test 0 HP)
              {| reconstructions := None; correct := None; test_loss := None;
                 log := setup_log |}) as [He [evs [Hlog Hall]]].
  split; [exact He|].
  exists (rev evs). unfold trace. rewrite rev_append_rev, app_nil_r, Hlog.
  cbn [log]. rewrite rev_app_distr. split; [reflexivity|].
  apply Forall_rev, Hall.
Qed.

Lemma train_batch_run (model : Sz.CapsuleNet) (idx b : Z) (g : globals) :
  Sz.CapsuleNet_init = Ok model -> 2 <= b ->
  train_batch model (idx, b) g
  = (Ok tt, {| reconstructions := Some [b; 784];
               correct := Some (PyInt 0);
               test_loss := Some (PyInt 0);
               log := rev (train_batch_events idx b) ++ log g |}).
Proof.
  intros Hinit Hb. unfold train_batch. cbn [fst snd].
  change (Sz.index_to_one_hot [b] 10) with (Ok [b; 10] : result Sz.size).
  unfold bind, emit, lift, set_reconstructions, set_correct, set_test_loss.
  cbn [reconstructions correct test_loss log].
  rewrite (CapsuleNet_forward_sizes_given model b Hinit Hb). cbn [fst snd].
  rewrite MarginLoss_forward_sizes.
  reflexivity.
Qed.

Lemma train_loop_run (model : Sz.CapsuleNet) (b : Z) (items : list (Z * Z)) (g : globals) :
  Sz.CapsuleNet_init = Ok model -> 2 <= b ->
  Forall (fun it => snd it = b) items -> items <> [] ->
  for_each items (train_batch model) g
  = (Ok tt, {| reconstructions := Some [b; 784];
               correct := Some (PyInt 0);
               test_loss := Some (PyInt 0);
               log := rev (flat_map (fun it => train_batch_events (fst it) (snd it)) items)
                      ++ log g |}).
Proof.
  intros Hinit Hb Hall. revert g.
  induction Hall as [|[idx b'] items Hb' Hrest IH]; intros g Hne; [contradiction|].
  simpl in Hb'. subst b'. cbn [for_each]. unfold bind at 1.
  rewrite (train_batch_run model idx b g Hinit Hb).
  destruct items as [|it items].
  - cbn [for_each ret flat_map fst snd]. rewrite app_nil_r. reflexivity.
  - rewrite IH by discriminate. cbn [log].
    set (F := fun it : Z * Z => train_batch_events (fst it) (snd it)).
    change (flat_map F ((idx, b) :: it :: items))
      with (train_batch_events idx b ++ flat_map F (it :: items)).
    rewrite rev_app_distr, <- app_assoc. reflexivity.
Qed.

Lemma test_batch_run (model : Sz.CapsuleNet) (idx b : Z) (l : list event) :
  Sz.CapsuleNet_init = Ok model -> 2 <= b ->
  test_batch model (idx, b)
    {| reconstructions := Some [b; 784]; correct := Some (PyInt 0);
       test_loss := Some (PyInt 0); log := l |}
  = (Raise RuntimeError,
     {| reconstructions := Some [b; 784]; correct := Some (PyInt 0);
        test_loss := Some (PyTensor [1]);
        log := Loss :: Forward [b; 1; 28; 28] [b; 10] :: l |}).
Proof.
  intros Hinit Hb. unfold test_batch. cbn [fst snd].
  change (Sz.index_to_one_hot [b] 10) with (Ok [b; 10] : result Sz.size).
  unfold bind, emit, lift, load, set_reconstructions, set_correct, set_test_loss.
  cbn [reconstructions correct test_loss log].
  rewrite (CapsuleNet_forward_sizes_given model b Hinit Hb). cbn [fst snd].
  rewrite MarginLoss_forward_sizes.
  change (Sz.max [b; 10] 1 true) with (Ok ([b; 1], [b; 1]) : result (Sz.size * Sz.size)).
  cbn [fst snd].
  assert (Hview : Sz.view [b; 10] [b; 1] = Raise RuntimeError).
  { unfold Sz.view. cbn [filter].
    destruct (Z.eqb_spec b (-1)); [lia|]. cbn [negb filter].
    change (1 =? -1) with false. cbn [length].
    replace (Sz.numel [b; 1] =? Sz.numel [b; 10]) with false; [reflexivity|].
    symmetry. apply Z.eqb_neq. unfold Sz.numel. simpl. lia. }
  rewrite Hview. reflexivity.
Qed.

Lemma enumerate_cons {A : Type} (a : A) (l : list A) :
  exists rest, enumerate (a :: l) = (0, a) :: rest.
Proof.
  unfold enumerate, range. rewrite Nat2Z.id. simpl. eauto.
Qed.

Lemma enumerate_snd {A : Type} (l : list A) (it : Z * A) :
  In it (enumerate l) -> In (snd it) l.
Proof.
  destruct it as [i a]. unfold enumerate. intros H. apply in_combine_r in H. exact H.
Qed.

Lemma batch_sizes_full (k : Z) :
  0 <= k -> batch_sizes (8 * k) 8 = repeat 8 (Z.to_nat k).
Proof.
  intros Hk. unfold batch_sizes.
  rewrite Z.mul_comm, Z.div_mul, Z.mod_mul by lia. simpl. apply app_nil_r.
Qed.

Lemma filter_flat_map_none {A : Type} (p : event -> bool) (f : A -> list event) (l : list A) :
  (forall a, filter p (f a) = []) -> filter p (flat_map f l) = [].
Proof.
  intros H. induction l as [|a l IH]; simpl; [reflexivity|].
  rewrite filter_app, H, IH. reflexivity.
Qed.


Lemma bind_ok {A B : Type} (m : M A) (k : A -> M B) (g g' : globals) (a : A) :
  m g = (Ok a, g') -> bind m k g = k a g'.
Proof. intros H. unfold bind. rewrite H. reflexivity. Qed.

Lemma bind_raise {A B : Type} (m : M A) (k : A -> M B) (g g' : globals) (e : exn) :
  m g = (Raise e, g') -> bind m k g = (Raise e, g').
Proof. intros H. unfold bind. rewrite H. reflexivity. Qed.


Lemma epoch_mnist (model : Sz.CapsuleNet) (e : Z) :
  Sz.CapsuleNet_init = Ok model ->
  epoch model 60000 10000 e
    {| reconstructions := None; correct := None; test_loss := None; log := setup_log |}
  = (Raise RuntimeError, mnist_final).
Proof.
  intros Hinit. unfold epoch.
  change 60000 with (8 * 7500). change 10000 with (8 * 1250).
  rewrite !batch_sizes_full by lia.
  erewrite bind_ok by reflexivity.
  erewrite bind_ok.
  2:{ apply (train_loop_run model 8); [exact Hinit | lia | |].
      - apply Forall_forall. intros it Hin. apply enumerate_snd in Hin.
        apply repeat_spec in Hin. exact Hin.
      - change (Z.to_nat 7500) with (S (Z.to_nat 7499)). cbn [repeat].
        destruct (enumerate_cons 8 (repeat 8 (Z.to_nat 7499))) as [rest ->]. discriminate. }
  apply bind_raise.
  change (Z.to_nat 1250) with (S (Z.to_nat 1249)). cbn [repeat].
  destruct (enumerate_cons 8 (repeat 8 (Z.to_nat 1249))) as [rest ->].
  cbn [for_each]. apply bind_raise.
  rewrite (test_batch_run model 0 8 _ Hinit) by lia. reflexivity.
Qed.

Lemma script_mnist : script 60000 10000 start = (Raise RuntimeError, mnist_final).
Proof.
  destruct (script_after_setup 60000 10000) as [model [Hinit ->]].
  change (range 10) with (0 :: map Z.of_nat (seq 1 9)). cbn [for_each].
  apply bind_raise. apply epoch_mnist, Hinit.
Qed.

Lemma trace_mnist : trace mnist_final = mnist_trace.
Proof.
  unfold trace, mnist_final, mnist_trace. cbn [log].
  rewrite rev_append_rev, app_nil_r.
  set (batches := flat_map _ _).
  change (Loss :: Forward [8; 1; 28; 28] [8; 10] :: rev batches ++ TrainMode :: setup_log)
    with ([Loss; Forward [8; 1; 28; 28] [8; 10]] ++ rev batches ++ TrainMode :: setup_log).
  rewrite !rev_app_distr, rev_involutive, <- app_assoc. reflexivity.
Qed.

Lemma run_mnist : run 60000 10000 = (Raise RuntimeError, mnist_trace).
Proof.
  unfold run. rewrite script_mnist. cbn [fst snd]. rewrite trace_mnist. reflexivity.
Qed.

Lemma filter_none (p : event -> bool) (l : list event) :
  Forall (fun e => p e = false) l -> filter p l = [].
Proof.
  induction 1 as [|e l He _ IH]; simpl; [reflexivity|]. now rewrite He.
Qed.

(** C6 on MNIST: every training batch runs, in order, the zeroing of the
    gradients, the forward pass on the one-hot target, the loss, the
    backward pass and one optimizer step; but the script raises in the
    first test batch of the first epoch, so the 7500 training batches are
    run once, not ten times. *)
Theorem script_stops_in_first_epoch :
  run 60000 10000 = (Raise RuntimeError, mnist_trace)
  /\ batch_sizes 60000 8 = repeat 8 (Z.to_nat 7500)
  /\ count is_train_mode mnist_trace = 1%nat.
Proof.
  split; [exact run_mnist|]. split.
  - change 60000 with (8 * 7500). apply batch_sizes_full. lia.
  - unfold count, mnist_trace. rewrite !filter_app.
    rewrite filter_flat_map_none by (intros it; reflexivity).
    reflexivity.
Qed.

(** C7: on datasets of any size the script raises before the test metrics
    are printed.  On MNIST the first test batch raises: the one-hot target
    of size (8, 10) cannot be viewed with the size (8, 1) of the
    predictions; and the final [print] calls [len] with two arguments. *)
Theorem test_metrics_never_printed :
  (forall n_train n_test,
      (exists e, fst (run n_train n_test) = Raise e)
      /\ Forall (fun e => e <> PrintTest) (snd (run n_train n_test)))
  /\ fst (run 60000 10000) = Raise RuntimeError
  /\ (exists before, snd (run 60000 10000)
                     = before ++ [Forward [8; 1; 28; 28] [8; 10]; Loss])
  /\ Sz.view [8; 10] [8; 1] = Raise RuntimeError
  /\ py_len [PyDataset 10000; PyFloat] = Raise TypeError.
Proof.
  split; [|split; [|split; [|split]]].
  - intros n_train n_test.
    destruct (script_raises (fun e => e <> PrintTest) n_train n_test)
      as [He [rest [Htrace Hrest]]]; [auto|].
    split; [exact He|]. rewrite Htrace. apply Forall_app. split; [|exact Hrest].
    repeat constructor; discriminate.
  - rewrite run_mnist. reflexivity.
  - rewrite run_mnist. cbn [snd]. unfold mnist_trace.
    rewrite app_assoc. eauto.
  - reflexivity.
  - reflexivity.
Qed.

(** C8: on datasets of any size, the events of the script that touch the
    file system are the two downloads of MNIST to /tmp, made when the
    loaders are built, before the first epoch; nothing is ever written
    back. *)
Theorem only_file_system_effect_is_download (n_train n_test : Z) :
  exists rest,
    snd (run n_train n_test)
    = [ToDevice; Download "/tmp" true; Download "/tmp" false] ++ rest
    /\ Forall (fun e => file_system e = false) rest
    /\ filter file_system (snd (run n_train n_test))
       = [Download "/tmp" true; Download "/tmp" false].
Proof.
  destruct (script_raises (fun e => file_system e = false) n_train n_test)
    as [_ [rest [Htrace Hrest]]]; [auto|].
  exists rest. split; [exact Htrace|]. split; [exact Hrest|].
  rewrite Htrace, filter_app, (filter_none _ _ Hrest). reflexivity.
Qed.

End ScriptFacts.

(** * Further properties *)

Section OneHotAndSquash.
Local Open Scope R_scope.

(** ** [index_to_one_hot] *)

Lemma rsum_indicator (idx start len : nat) :
  rsum (map (fun j => if Nat.eqb j idx then 1 else 0) (seq start len))
  = if (start <=? idx)%nat && (idx <? start + len)%nat then 1 else 0.
Proof.
  revert start. induction len as [|len IH]; intros start; simpl.
  - destruct (Nat.leb_spec start idx), (Nat.ltb_spec idx (start + 0)); simpl; try lra; lia.
  - rewrite IH.
    destruct (Nat.eqb_spec start idx) as [-> | Hne].
    + rewrite Nat.leb_refl.
      destruct (Nat.leb_spec (S idx) idx); [lia|].
      destruct (Nat.ltb_spec idx (idx + S len)); [|lia]. simpl. lra.
    + destruct (Nat.leb_spec start idx), (Nat.leb_spec (S start) idx); try lia;
        destruct (Nat.ltb_spec idx (S start + len)), (Nat.ltb_spec idx (start + S len));
        simpl; try lra; lia.
Qed.

Lemma eye_row_entry (n idx c : nat) :
  (c < n)%nat -> nth c (eye_row n idx) 0 = if Nat.eqb c idx then 1 else 0.
Proof.
  intros Hc. unfold eye_row.
  rewrite (nth_indep _ 0 ((fun j => if Nat.eqb j idx then 1 else 0) 0%nat))
    by (now rewrite length_map, length_seq).
  rewrite (map_nth (fun j => if Nat.eqb j idx then 1 else 0)), seq_nth by exact Hc.
  reflexivity.
Qed.

(** X1: for indices within the classes, [index_to_one_hot] gives one row
    per index, of [num_classes] entries that sum to 1: entry [c] of row [b]
    is 1 when [c] is the index of [b] and 0 otherwise. *)
Theorem index_to_one_hot_rows (index_tensor : list Z) (num_classes : nat) :
  Forall (fun i => (0 <= i < Z.of_nat num_classes)%Z) index_tensor ->
  length (index_to_one_hot index_tensor num_classes) = length index_tensor
  /\ Forall (fun row => length row = num_classes /\ rsum row = 1)
            (index_to_one_hot index_tensor num_classes)
  /\ forall b c, (b < length index_tensor)%nat -> (c < num_classes)%nat ->
       entry2 (index_to_one_hot index_tensor num_classes) b c
       = if (Z.of_nat c =? nth b index_tensor 0%Z)%Z then 1 else 0.
Proof.
  intros Hrange. unfold index_to_one_hot. split; [apply length_map|]. split.
  - apply Forall_map. eapply Forall_impl; [|exact Hrange].
    intros i Hi. cbv beta. unfold eye_row at 1. rewrite length_map, length_seq.
    split; [reflexivity|]. unfold eye_row. rewrite rsum_indicator.
    cbv beta in Hi. destruct (Nat.ltb_spec (Z.to_nat i) (0 + num_classes)); [reflexivity | lia].
  - intros b c Hb Hc. unfold entry2.
    rewrite (nth_indep _ [] (eye_row num_classes (Z.to_nat 0%Z)))
      by (now rewrite length_map).
    rewrite (map_nth (fun i => eye_row num_classes (Z.to_nat i))).
    rewrite eye_row_entry by exact Hc.
    assert (Hi : (0 <= nth b index_tensor 0 < Z.of_nat num_classes)%Z).
    { rewrite Forall_forall in Hrange. apply Hrange, nth_In, Hb. }
    destruct (Nat.eqb_spec c (Z.to_nat (nth b index_tensor 0%Z))) as [-> | Hne].
    + rewrite Z2Nat.id by lia. now rewrite Z.eqb_refl.
    + destruct (Z.eqb_spec (Z.of_nat c) (nth b index_tensor 0%Z)); [lia | reflexivity].
Qed.

(** The theorem on the indices 2 and 5 with ten classes. *)
Lemma index_to_one_hot_rows_witness :
  Forall (fun row => length row = 10%nat /\ rsum row = 1) (index_to_one_hot [2; 5]%Z 10).
Proof.
  apply (index_to_one_hot_rows [2; 5]%Z 10).
  repeat constructor; simpl; lia.
Defined.

(** ** [squash_vector] *)

Lemma rsum_squares_zero (v : tensor1) :
  rsum (map (fun t => t ^ 2) v) = 0 -> Forall (fun a => a = 0) v.
Proof.
  induction v as [|a v IH]; intros H; constructor.
  - change (a ^ 2 + rsum (map (fun t => t ^ 2) v) = 0) in H.
    pose proof (rsum_squares_nonneg v).
    assert (Hsq : a * a = 0) by nra.
    destruct (Rmult_integral _ _ Hsq); assumption.
  - apply IH. change (a ^ 2 + rsum (map (fun t => t ^ 2) v) = 0) in H.
    pose proof (rsum_squares_nonneg v). nra.
Qed.

Lemma all_zero_repeat (v : tensor1) : Forall (fun a => a = 0) v -> v = repeat 0 (length v).
Proof.
  induction 1 as [|a v Ha _ IH]; simpl; [reflexivity|]. now rewrite Ha, <- IH.
Qed.

Lemma mapM_some {A B : Type} (f : A -> option B) (l : list A) (l' : list B) :
  mapM f l = Some l' -> Forall2 (fun a b => f a = Some b) l l'.
Proof.
  revert l'. induction l as [|a l IH]; intros l' H; simpl in H.
  - injection H as <-. constructor.
  - destruct (f a) as [b|] eqn:Hfa; [|discriminate].
    destruct (mapM f l) as [bs|]; [|discriminate].
    injection H as <-. constructor; [exact Hfa | now apply IH].
Qed.



Lemma squash_vector_some (v sv : tensor1) :
  squash_vector v = Some sv ->
  sv = squash_formula v /\ (v = [] \/ 0 < norm v).
Proof.
  intros H. destruct v as [|a v].
  - unfold squash_vector in H. simpl in H.
    rewrite checked_div_some in H by lra. simpl in H. injection H as <-. auto.
  - assert (Hn : 0 < norm (a :: v)).
    { unfold norm. apply sqrt_lt_R0.
      destruct (rsum_squares_nonneg (a :: v)) as [Hlt | Heq]; [exact Hlt|].
      exfalso. symmetry in Heq. apply rsum_squares_zero in Heq.
      assert (Hnone : squash_vector (a :: v) = None)
        by (rewrite (all_zero_repeat (a :: v) Heq); simpl length; apply squash_zero_vector).
      congruence. }
    rewrite (squash_vector_defined _ Hn) in H. injection H as <-. auto.
Qed.

Lemma squash_some_norm (v sv : tensor1) :
  squash_vector v = Some sv -> norm sv = norm v ^ 2 / (1 + norm v ^ 2).
Proof.
  intros H. destruct (squash_vector_some v sv H) as [-> [-> | Hn]].
  - unfold squash_formula, norm. simpl. rewrite sqrt_0. field.
  - apply squash_formula_norm, Hn.
Qed.

Lemma norm_nonneg (v : tensor1) : 0 <= norm v.
Proof. apply sqrt_pos. Qed.

(** X3: squashing shrinks.  Where [squash_vector] is defined the new length
    is [|v|^2 / (1 + |v|^2)]: at most [|v|^2] and [|v|], below 1, within
    [1 / |v|^2] of 1, and a longer vector stays at least as long. *)
Theorem squash_vector_shrinks (v w sv sw : tensor1) :
  squash_vector v = Some sv ->
  squash_vector w = Some sw ->
  norm sv = norm v ^ 2 / (1 + norm v ^ 2)
  /\ norm sv <= norm v ^ 2
  /\ norm sv <= norm v
  /\ norm sv < 1
  /\ (0 < norm v -> 1 - 1 / norm v ^ 2 < norm sv)
  /\ (norm v <= norm w -> norm sv <= norm sw).
Proof.
  intros Hv Hw. rewrite (squash_some_norm v sv Hv), (squash_some_norm w sw Hw).
  pose proof (norm_nonneg v) as Hnv. pose proof (norm_nonneg w) as Hnw.
  set (a := norm v) in *. set (b := norm w) in *.
  assert (Ha : 0 < 1 + a ^ 2) by nra. assert (Hb : 0 < 1 + b ^ 2) by nra.
  split; [reflexivity|]. split; [|split; [|split; [|split]]].
  - apply (Rmult_le_reg_r (1 + a ^ 2)); [lra|].
    unfold Rdiv. rewrite Rmult_assoc, Rinv_l by lra. nra.
  - apply (Rmult_le_reg_r (1 + a ^ 2)); [lra|].
    unfold Rdiv. rewrite Rmult_assoc, Rinv_l by lra. nra.
  - apply fraction_below_one. nra.
  - intros Hpos.
    assert (H1 : a ^ 2 / (1 + a ^ 2) = 1 - 1 / (1 + a ^ 2)) by (field; lra).
    rewrite H1.
    assert (H2 : 1 / (1 + a ^ 2) < 1 / a ^ 2).
    { unfold Rdiv. rewrite !Rmult_1_l. apply Rinv_lt_contravar; nra. }
    lra.
  - intros Hle.
    assert (H1 : a ^ 2 / (1 + a ^ 2) = 1 - 1 / (1 + a ^ 2)) by (field; lra).
    assert (H2 : b ^ 2 / (1 + b ^ 2) = 1 - 1 / (1 + b ^ 2)) by (field; lra).
    rewrite H1, H2.
    assert (H3 : 1 / (1 + b ^ 2) <= 1 / (1 + a ^ 2)).
    { unfold Rdiv. rewrite !Rmult_1_l. apply Rinv_le_contravar; nra. }
    lra.
Qed.

(** The theorem on (3, 4) and (6, 8). *)
Lemma squash_vector_shrinks_witness :
  norm (squash_formula [3; 4]) <= norm (squash_formula [6; 8]).
Proof.
  assert (H1 : 0 < norm [3; 4]) by (unfold norm; apply sqrt_lt_R0; simpl; lra).
  assert (H2 : 0 < norm [6; 8]) by (unfold norm; apply sqrt_lt_R0; simpl; lra).
  apply (squash_vector_shrinks [3; 4] [6; 8] _ _
           (squash_vector_defined _ H1) (squash_vector_defined _ H2)).
  unfold norm. apply sqrt_le_1_alt. simpl. lra.
Defined.

End OneHotAndSquash.

Section SoftmaxFacts.
Local Open Scope R_scope.

(** ** [softmax] *)

Lemma rsum_div (l : list R) (s : R) : rsum (map (fun a => a / s) l) = rsum l / s.
Proof.
  induction l as [|a l IH]; simpl.
  - unfold Rdiv. now rewrite Rmult_0_l.
  - rewrite IH. unfold Rdiv. lra.
Qed.

Lemma rsum_positive (l : list R) : l <> [] -> Forall (fun a => 0 < a) l -> 0 < rsum l.
Proof.
  intros Hne H. destruct H as [|a l Ha Hl]; [contradiction|].
  simpl. assert (0 <= rsum l).
  { apply rsum_nonneg. eapply Forall_impl; [|exact Hl]. intros; cbv beta in *; lra. }
  lra.
Qed.

Lemma rsum_bounds_entry (l : list R) (a : R) :
  Forall (fun b => 0 < b) l -> In a l -> a <= rsum l.
Proof.
  induction 1 as [|b l Hb Hl IH]; intros Hin; [contradiction|].
  simpl. assert (0 <= rsum l).
  { apply rsum_nonneg. eapply Forall_impl; [|exact Hl]. intros; cbv beta in *; lra. }
  destruct Hin as [-> | Hin]; [lra|]. specialize (IH Hin). lra.
Qed.

Lemma exps_positive (l : list R) : Forall (fun a => 0 < a) (map exp l).
Proof. apply Forall_map, Forall_forall. intros a _. apply exp_pos. Qed.

Lemma F_softmax_length (l : tensor1) : length (F_softmax l) = length l.
Proof. unfold F_softmax. now rewrite !length_map. Qed.

Lemma F_softmax_entries (l : tensor1) : Forall (fun a => 0 < a <= 1) (F_softmax l).
Proof.
  unfold F_softmax. apply Forall_map, Forall_forall. intros e He.
  assert (Hne : map exp l <> []) by (intros Heq; rewrite Heq in He; contradiction).
  pose proof (rsum_positive _ Hne (exps_positive l)) as Hs.
  pose proof (rsum_bounds_entry _ e (exps_positive l) He) as Hle.
  assert (Hpos : 0 < e).
  { pose proof (exps_positive l) as H. rewrite Forall_forall in H. now apply H. }
  split; [apply Rdiv_lt_0_compat; lra|].
  apply (Rmult_le_reg_r (rsum (map exp l))); [lra|].
  unfold Rdiv. rewrite Rmult_assoc, Rinv_l by lra. lra.
Qed.

Lemma F_softmax_sum (l : tensor1) : l <> [] -> rsum (F_softmax l) = 1.
Proof.
  intros Hne. unfold F_softmax. rewrite rsum_div.
  assert (Hne' : map exp l <> []) by (destruct l; [contradiction | discriminate]).
  pose proof (rsum_positive _ Hne' (exps_positive l)). field. lra.
Qed.

Lemma nth_map_seq {A : Type} (f : nat -> A) (d : A) (n k : nat) :
  (k < n)%nat -> nth k (map f (seq 0 n)) d = f k.
Proof.
  intros Hk. rewrite (nth_indep _ d (f 0%nat)) by (now rewrite length_map, length_seq).
  rewrite (map_nth f), seq_nth by exact Hk. reflexivity.
Qed.

Lemma column_length (m : tensor2) (k : nat) : length (column m k) = length m.
Proof. apply length_map. Qed.

Lemma softmax_cell (m : tensor2) (nr nout : nat) :
  length m = S nr -> Forall (fun row => length row = S nout) m ->
  let p := transpose 0 (map F_softmax (transpose 0 m)) in
  length p = S nr
  /\ Forall (fun row => length row = S nout) p
  /\ forall k, (k < S nout)%nat -> column p k = F_softmax (column m k).
Proof.
  intros Hlen Hrows p.
  assert (Hhd : length (hd [] m) = S nout).
  { destruct m as [|row m]; [discriminate|]. now inversion Hrows. }
  assert (Hq : map F_softmax (transpose 0 m)
               = map (fun k => F_softmax (column m k)) (seq 0 (S nout))).
  { unfold transpose. rewrite Hhd, map_map. reflexivity. }
  assert (Hp : p = map (fun j => map (fun k => nth j (F_softmax (column m k)) 0)
                                     (seq 0 (S nout)))
                       (seq 0 (S nr))).
  { subst p. rewrite Hq. unfold transpose.
    change (hd [] (map (fun k => F_softmax (column m k)) (seq 0 (S nout))))
      with (F_softmax (column m 0)).
    rewrite F_softmax_length, column_length, Hlen.
    apply map_ext. intros j. now rewrite map_map. }
  rewrite Hp. split; [now rewrite length_map, length_seq|]. split.
  - apply Forall_map, Forall_forall. intros j _. now rewrite length_map, length_seq.
  - intros k Hk. unfold column at 1. rewrite map_map.
    rewrite (map_ext _ (fun j => nth j (F_softmax (column m k)) 0))
      by (intros j;
          exact (nth_map_seq (fun k' => nth j (F_softmax (column m k')) 0) 0 (S nout) k Hk)).
    transitivity (map (fun a => a) (F_softmax (column m k))); [|apply map_id].
    rewrite (map_as_seq (fun a => a) 0), F_softmax_length, column_length, Hlen.
    reflexivity.
Qed.

Lemma Forall2_map_same {A B : Type} (R : A -> B -> Prop) (f : A -> B) (l : list A) :
  Forall (fun a => R a (f a)) l -> Forall2 R l (map f l).
Proof.
  induction 1; simpl; constructor; auto.
Qed.

Lemma softmax_cellwise (input : tensor4) :
  softmax input
  = map (map (fun m => transpose 0 (map F_softmax (transpose 0 m)))) input.
Proof.
  unfold softmax. rewrite !map_map. apply map_ext. intros c.
  rewrite !map_map. reflexivity.
Qed.

(** X4: on a tensor whose cells all have [S nr] routes of [S nout] channels,
    [softmax(input, dim=2)] keeps that shape; along the routes each channel
    of a cell holds the softmax of its logits: entries in (0, 1] that sum
    to 1. *)
Theorem softmax_over_routes (input : tensor4) (nr nout : nat) :
  Forall (Forall (fun m => length m = S nr
                           /\ Forall (fun row => length row = S nout) m)) input ->
  Forall2 (Forall2 (fun m p =>
             length p = S nr
             /\ Forall (fun row => length row = S nout) p
             /\ forall k, (k < S nout)%nat ->
                  column p k = F_softmax (column m k)
                  /\ Forall (fun a => 0 < a <= 1) (column p k)
                  /\ rsum (column p k) = 1))
          input (softmax input).
Proof.
  intros Hshape. rewrite softmax_cellwise.
  apply Forall2_map_same. eapply Forall_impl; [|exact Hshape].
  intros c Hc. apply Forall2_map_same. eapply Forall_impl; [|exact Hc].
  intros m [Hlen Hrows].
  destruct (softmax_cell m nr nout Hlen Hrows) as [H1 [H2 H3]].
  split; [exact H1|]. split; [exact H2|].
  intros k Hk. rewrite (H3 k Hk). split; [reflexivity|].
  split; [apply F_softmax_entries|].
  apply F_softmax_sum. intros Heq.
  assert (Hl : length (column m k) = 0%nat) by now rewrite Heq.
  rewrite column_length in Hl. lia.
Qed.

(** The theorem on one cell of two routes and one channel. *)
Lemma softmax_over_routes_witness :
  Forall2 (Forall2 (fun m p => length p = 2%nat)) [[[[1]; [3]]]] (softmax [[[[1]; [3]]]]).
Proof.
  pose proof (softmax_over_routes [[[[1]; [3]]]] 1 0) as H.
  eapply Forall2_impl; [|apply H; repeat constructor].
  intros c c' Hc. eapply Forall2_impl; [|exact Hc].
  intros m p Hp. exact (proj1 Hp).
Defined.

End SoftmaxFacts.

Section CapsuleLayerFacts.
Local Open Scope R_scope.

(** ** Capsule layers *)

Lemma Forall2_right {A B : Type} (R : A -> B -> Prop) (P : B -> Prop) (l : list A) (l' : list B) :
  Forall2 R l l' -> (forall a b, R a b -> P b) -> Forall P l'.
Proof.
  intros H HP. induction H; constructor; eauto.
Qed.

(** X5: whenever a layer without routes returns a value, every vector it
    returns, one per position, is shorter than 1. *)
Theorem primary_capsules_shorter_than_one
    (self : CapsuleLayer) (x : tensor4) (outputs : tensor3) :
  CapsuleLayer_forward_capsules self x = Some outputs ->
  Forall (Forall (fun v => norm v < 1)) outputs.
Proof.
  unfold CapsuleLayer_forward_capsules, squash_vector3. intros H.
  apply mapM_some in H.
  apply (Forall2_right _ _ _ _ H). intros m m' Hm.
  apply mapM_some in Hm.
  apply (Forall2_right _ _ _ _ Hm). intros v v' Hv.
  rewrite (squash_some_norm v v' Hv).
  apply fraction_below_one. pose proof (norm_nonneg v). nra.
Qed.

(** The theorem on the primary capsules of the example network. *)
Lemma primary_capsules_shorter_than_one_witness :
  Forall (Forall (fun v => norm v < 1)) (repeat (repeat half_unit 1152%nat) 2%nat).
Proof.
  exact (primary_capsules_shorter_than_one _ _ _ primary_capsules_example).
Defined.




(** *** A zero prediction *)

Lemma map2_map_same {A B C : Type} (f : B -> A -> C) (g : A -> B) (l : list A) :
  map2 f (map g l) l = map (fun a => f (g a) a) l.
Proof.
  induction l as [|a l IH]; [reflexivity|].
  simpl map. rewrite map2_cons, IH. reflexivity.
Qed.







End CapsuleLayerFacts.

Section LossAndScores.
Local Open Scope R_scope.

(** ** The loss and the class scores *)
















End LossAndScores.

(** * Further properties: the size reading *)

Section SizeRules.
Local Open Scope Z_scope.
Import Sz.

Local Arguments Z.eqb : simpl never.
Local Arguments Z.mul : simpl never.
Local Arguments Z.div : simpl never.
Local Arguments Z.modulo : simpl never.
Local Arguments routing_step : simpl never.

Ltac split_eqb :=
  match goal with
  | |- context [?a =? ?b] => destruct (Z.eqb_spec a b); [try lia | try lia]
  end.
Ltac run_sizes :=
  repeat (simpl; rewrite ?Z.eqb_refl; try split_eqb); try reflexivity; try congruence.

(** ** Sizes of the helper functions *)

Lemma broadcast_rev_same (l : size) : broadcast_rev l l = Ok l.
Proof.
  induction l as [|x l IH]; [reflexivity|].
  simpl. rewrite IH. simpl. now rewrite Z.eqb_refl.
Qed.

Lemma broadcast_rev_one_l (c : Z) (l : size) : broadcast_rev (1 :: l) (c :: l) = Ok (c :: l).
Proof.
  simpl. rewrite broadcast_rev_same. simpl.
  destruct (Z.eqb_spec 1 c) as [<- | Hne]; reflexivity.
Qed.

Lemma broadcast_rev_one_r (c : Z) (l : size) : broadcast_rev (c :: l) (1 :: l) = Ok (c :: l).
Proof.
  simpl. rewrite broadcast_rev_same. simpl.
  destruct (Z.eqb_spec c 1) as [-> | Hne]; reflexivity.
Qed.

Lemma wrap_dim_last (front : size) (c : Z) :
  wrap_dim (front ++ [c]) (-1) = Ok (length front).
Proof.
  unfold wrap_dim, ndim. rewrite length_app, Nat.add_comm. cbn [length Nat.add].
  set (n := Z.of_nat (S (length front))).
  assert (Hn : n = Z.of_nat (length front) + 1) by (unfold n; lia).
  destruct (Z.leb_spec (- n) (-1)); [|lia].
  destruct (Z.ltb_spec (-1) n); [|lia].
  cbn [andb]. change (-1 <? 0) with true. cbv iota.
  f_equal. lia.
Qed.

Lemma sum_last_keepdim (front : size) (c : Z) :
  sum (front ++ [c]) (-1) true = Ok (front ++ [1]).
Proof.
  unfold sum. rewrite wrap_dim_last. cbn [rbind]. unfold set_nth.
  rewrite firstn_app, firstn_all, Nat.sub_diag, app_nil_r.
  rewrite skipn_all2 by (rewrite length_app; simpl; lia). reflexivity.
Qed.

Lemma broadcast_same (s : size) : broadcast s s = Ok s.
Proof.
  unfold broadcast. rewrite broadcast_rev_same. cbn [rbind]. now rewrite rev_involutive.
Qed.

Lemma broadcast_scalar (s : size) : broadcast [] s = Ok s.
Proof.
  unfold broadcast. cbn [rev broadcast_rev rbind]. now rewrite rev_involutive.
Qed.

Lemma broadcast_one_last_l (front : size) (c : Z) :
  broadcast (front ++ [1]) (front ++ [c]) = Ok (front ++ [c]).
Proof.
  unfold broadcast. rewrite !rev_app_distr. cbn [rev app].
  rewrite broadcast_rev_one_l. cbn [rbind rev]. now rewrite rev_involutive.
Qed.

Lemma broadcast_one_last_r (front : size) (c : Z) :
  broadcast (front ++ [c]) (front ++ [1]) = Ok (front ++ [c]).
Proof.
  unfold broadcast. rewrite !rev_app_distr. cbn [rev app].
  rewrite broadcast_rev_one_r. cbn [rbind rev]. now rewrite rev_involutive.
Qed.

Lemma squash_vector_last_axis (front : size) (c : Z) :
  squash_vector (front ++ [c]) (-1) = Ok (front ++ [c]).
Proof.
  unfold squash_vector. rewrite sum_last_keepdim. cbn [rbind].
  rewrite broadcast_scalar. cbn [rbind].
  rewrite broadcast_same. cbn [rbind].
  rewrite broadcast_one_last_l. cbn [rbind].
  apply broadcast_one_last_r.
Qed.

(** X11: in the size reading [squash_vector] along the last axis returns a
    tensor of the size of its argument, for every argument with at least
    one axis: the norm keeps the axis with size one and broadcasts back. *)
Theorem squash_vector_keeps_size (s : size) :
  s <> [] -> squash_vector s (-1) = Ok s.
Proof.
  intros Hne. destruct (exists_last Hne) as [front [c ->]].
  apply squash_vector_last_axis.
Qed.

Lemma squash_vector_keeps_size_witness : squash_vector [8; 1152; 8] (-1) = Ok [8; 1152; 8].
Proof.
  apply (squash_vector_keeps_size [8; 1152; 8]). discriminate.
Defined.

Lemma numel_app (a b : size) : numel (a ++ b) = numel a * numel b.
Proof.
  unfold numel. induction a as [|x a IH]; simpl.
  - destruct (fold_right Z.mul 1 b); reflexivity.
  - rewrite IH. lia.
Qed.

Lemma numel_cons (x : Z) (a : size) : numel (x :: a) = x * numel a.
Proof. reflexivity. Qed.

Lemma set_nth_middle (l1 rest : size) (x v : Z) :
  set_nth (length l1) v (l1 ++ x :: rest) = l1 ++ v :: rest.
Proof.
  unfold set_nth.
  rewrite firstn_app, firstn_all, Nat.sub_diag, app_nil_r.
  replace (S (length l1)) with (length (l1 ++ [x])) by (rewrite length_app; simpl; lia).
  replace (l1 ++ x :: rest) with ((l1 ++ [x]) ++ rest) by (rewrite <- app_assoc; reflexivity).
  rewrite skipn_app, skipn_all, Nat.sub_diag. reflexivity.
Qed.

Lemma wrap_dim_nonneg (s : size) (i : nat) :
  (i < length s)%nat -> wrap_dim s (Z.of_nat i) = Ok i.
Proof.
  intros Hi. unfold wrap_dim, ndim.
  destruct (Z.leb_spec (- Z.of_nat (length s)) (Z.of_nat i)); [|lia].
  destruct (Z.ltb_spec (Z.of_nat i) (Z.of_nat (length s))); [|lia].
  destruct (Z.ltb_spec (Z.of_nat i) 0); [lia|].
  cbn [andb]. f_equal. lia.
Qed.

Lemma wrap_dim_last_index (front : size) (c : Z) :
  wrap_dim (front ++ [c]) (ndim (front ++ [c]) - 1) = Ok (length front).
Proof.
  unfold ndim. rewrite length_app, Nat.add_comm. cbn [length Nat.add].
  replace (Z.of_nat (S (length front)) - 1) with (Z.of_nat (length front)) by lia.
  apply wrap_dim_nonneg. rewrite length_app. simpl. lia.
Qed.

(** Exchanging the last axis with itself changes nothing. *)
Lemma transpose_last_last (front : size) (c : Z) :
  transpose (front ++ [c]) (Z.of_nat (length front)) (ndim (front ++ [c]) - 1)
  = Ok (front ++ [c]).
Proof.
  unfold transpose. rewrite wrap_dim_last_index.
  rewrite wrap_dim_nonneg by (rewrite length_app; simpl; lia).
  cbn [rbind]. rewrite nth_middle, !set_nth_middle. reflexivity.
Qed.

(** Exchanging an inner axis with the last one. *)
Lemma transpose_inner_last (l1 l2 : size) (x y : Z) :
  transpose (l1 ++ x :: l2 ++ [y]) (Z.of_nat (length l1)) (ndim (l1 ++ x :: l2 ++ [y]) - 1)
  = Ok (l1 ++ y :: l2 ++ [x]).
Proof.
  unfold transpose.
  rewrite wrap_dim_nonneg by (rewrite length_app; simpl; lia). cbn [rbind].
  replace (l1 ++ x :: l2 ++ [y]) with ((l1 ++ x :: l2) ++ [y])
    by (rewrite <- app_assoc; reflexivity).
  rewrite wrap_dim_last_index. cbn [rbind].
  rewrite (nth_middle (l1 ++ x :: l2) [] y 0).
  rewrite (set_nth_middle (l1 ++ x :: l2) [] y).
  rewrite <- !app_assoc. cbn [app].
  rewrite (nth_middle l1 (l2 ++ [y]) x 0).
  apply (f_equal Ok). apply set_nth_middle.
Qed.

Lemma size_at_last (front : size) (c : Z) : size_at (front ++ [c]) (-1) = Ok c.
Proof.
  unfold size_at. rewrite wrap_dim_last. cbn [rbind]. now rewrite nth_middle.
Qed.

Lemma numel_positive (s : size) : Forall (fun a => 0 < a) s -> 0 < numel s.
Proof.
  induction 1 as [|a l Ha _ IH]; [reflexivity|]. rewrite numel_cons. lia.
Qed.

(** Flattening to rows of the last axis, and viewing the rows in the old
    size again. *)
Lemma view_as_rows (front : size) (c : Z) :
  0 < c -> view (front ++ [c]) [-1; c] = Ok [numel front; c].
Proof.
  intros Hc. apply view_rows; [exact Hc|].
  rewrite numel_app, numel_cons. unfold numel at 2. simpl. lia.
Qed.

Lemma view_rows_back (front : size) (c : Z) :
  Forall (fun a => 0 < a) (front ++ [c]) ->
  view [numel front; c] (front ++ [c]) = Ok (front ++ [c]).
Proof.
  intros Hpos. apply view_same.
  - eapply Forall_impl; [|exact Hpos]. intros a Ha. cbv beta in Ha. lia.
  - rewrite numel_app, !numel_cons. reflexivity.
Qed.

Lemma positive_last (front : size) (c : Z) :
  Forall (fun a => 0 < a) (front ++ [c]) -> 0 < c.
Proof. intros H. apply Forall_app in H as [_ Hc]. now inversion Hc. Qed.

Lemma ndim_swap (l1 l2 : size) (x y : Z) :
  ndim (l1 ++ y :: l2 ++ [x]) = ndim (l1 ++ x :: l2 ++ [y]).
Proof. unfold ndim. rewrite !length_app. simpl. rewrite !length_app. reflexivity. Qed.

Lemma positive_swap (l1 l2 : size) (x y : Z) :
  Forall (fun a => 0 < a) (l1 ++ x :: l2 ++ [y]) ->
  Forall (fun a => 0 < a) ((l1 ++ y :: l2) ++ [x]).
Proof.
  intros Hpos. rewrite <- app_assoc. cbn [app].
  apply Forall_app in Hpos as [H1 Hrest]. inversion Hrest as [|? ? Hx Hrest']; subst.
  apply Forall_app in Hrest' as [H2 Hy]. inversion Hy as [|? ? Hy' _]; subst.
  apply Forall_app. split; [exact H1|]. constructor; [exact Hy'|].
  apply Forall_app. split; [exact H2|]. constructor; [exact Hx | constructor].
Qed.

(** [softmax] over the last axis. *)
Lemma softmax_last_axis (front : size) (c : Z) :
  Forall (fun a => 0 < a) (front ++ [c]) ->
  softmax (front ++ [c]) (Z.of_nat (length front)) = Ok (front ++ [c]).
Proof.
  intros Hpos. unfold softmax. rewrite transpose_last_last. cbn [rbind].
  rewrite size_at_last. cbn [rbind].
  rewrite view_as_rows by exact (positive_last _ _ Hpos). cbn [rbind F_softmax].
  rewrite view_rows_back by exact Hpos. cbn [rbind].
  apply transpose_last_last.
Qed.

(** [softmax] over an axis before the last. *)
Lemma softmax_inner_axis (l1 l2 : size) (x y : Z) :
  Forall (fun a => 0 < a) (l1 ++ x :: l2 ++ [y]) ->
  softmax (l1 ++ x :: l2 ++ [y]) (Z.of_nat (length l1)) = Ok (l1 ++ x :: l2 ++ [y]).
Proof.
  intros Hpos. pose proof (positive_swap l1 l2 x y Hpos) as Hswap.
  unfold softmax. rewrite transpose_inner_last. cbn [rbind].
  replace (l1 ++ y :: l2 ++ [x]) with ((l1 ++ y :: l2) ++ [x])
    by (rewrite <- app_assoc; reflexivity).
  rewrite size_at_last. cbn [rbind].
  rewrite view_as_rows by exact (positive_last _ _ Hswap). cbn [rbind F_softmax].
  rewrite view_rows_back by exact Hswap. cbn [rbind].
  rewrite <- app_assoc. cbn [app].
  rewrite <- (ndim_swap l1 l2 x y). apply transpose_inner_last.
Qed.

(** X12: in the size reading [softmax] returns a tensor of the size of its
    input, for every axis [dim] counted from the front and every input
    without an empty axis: the two transpositions and the two views undo
    each other. *)
Theorem softmax_keeps_size (s : size) (d : Z) :
  0 <= d < ndim s -> Forall (fun a => 0 < a) s -> softmax s d = Ok s.
Proof.
  intros Hd Hpos. unfold ndim in Hd.
  set (i := Z.to_nat d).
  assert (Hi : (i < length s)%nat) by (unfold i; lia).
  assert (Hdi : d = Z.of_nat i) by (unfold i; lia).
  destruct (nth_split s 0 Hi) as [l1 [rest [Hs Hlen]]].
  set (x := nth i s 0) in Hs. clearbody x.
  subst s. rewrite Hdi, <- Hlen. clear Hd Hi Hdi Hlen i d.
  destruct rest as [|z rest'].
  - apply softmax_last_axis, Hpos.
  - assert (Hne : z :: rest' <> []) by discriminate.
    destruct (exists_last Hne) as [l2 [y Hy]]. rewrite Hy in *.
    apply softmax_inner_axis, Hpos.
Qed.

Lemma softmax_keeps_size_witness : softmax [10; 8; 1152; 1; 16] 2 = Ok [10; 8; 1152; 1; 16].
Proof.
  apply (softmax_keeps_size [10; 8; 1152; 1; 16] 2).
  - unfold ndim. simpl. lia.
  - repeat constructor.
Defined.

(** ** Sizes in a routing layer *)

Lemma routing_step_keeps_sizes (C b R cout n i : Z) (o : option size) :
  1 <= C -> 1 <= b -> 1 <= R -> 1 <= cout ->
  routing_step n [C; b; R; 1; cout] (Ok ([C; b; R; 1; cout], o)) i
  = Ok ([C; b; R; 1; cout], Some [C; b; 1; 1; cout]).
Proof.
  intros HC Hb HR Hc. unfold routing_step. cbn [rbind fst].
  change (softmax [C; b; R; 1; cout] 2)
    with (softmax ([C; b] ++ R :: [1] ++ [cout]) (Z.of_nat (length [C; b]))).
  rewrite (softmax_inner_axis [C; b] [1] R cout) by (repeat constructor; lia).
  cbn [rbind app]. rewrite broadcast_same. cbn [rbind].
  change [C; b; R; 1; cout] with ([C; b; R; 1] ++ [cout]) at 1.
  rewrite (squash_vector_last_axis [C; b; R; 1] cout). cbn [rbind app].
  unfold sum, set_nth, broadcast. run_sizes.
Qed.

Lemma routing_loop_sizes (C b R cout n : Z) (l : list Z) (o : option size) :
  1 <= C -> 1 <= b -> 1 <= R -> 1 <= cout -> l <> [] ->
  fold_left (routing_step n [C; b; R; 1; cout]) l (Ok ([C; b; R; 1; cout], o))
  = Ok ([C; b; R; 1; cout], Some [C; b; 1; 1; cout]).
Proof.
  intros HC Hb HR Hc. revert o. induction l as [|i l IH]; intros o Hne; [congruence|].
  cbn [fold_left]. rewrite routing_step_keeps_sizes by assumption.
  destruct l as [|j l']; [reflexivity|]. apply IH. discriminate.
Qed.

(** X13: a layer built with a number of routes other than -1, run for at
    least one iteration on [b] samples of [R] capsules of [cin] entries,
    returns a tensor of size (C, b, 1, 1, cout): one vector of [cout]
    entries per capsule and sample, the route axis kept with size one. *)
Theorem routing_layer_output_size (C R cin cout n b : Z) (k s : option Z) (self : CapsuleLayer) :
  1 <= C -> 1 <= R -> 1 <= cin -> 1 <= cout -> 1 <= n -> 1 <= b ->
  CapsuleLayer_init C R cin cout k s n = Ok self ->
  CapsuleLayer_forward self [b; R; cin] = Ok [C; b; 1; 1; cout].
Proof.
  intros HC HR Hi Ho Hn Hb Hinit. unfold CapsuleLayer_init in Hinit.
  destruct (Z.eqb_spec R (-1)) as [|HR1]; [lia|]. cbn [negb] in Hinit.
  injection Hinit as <-. unfold CapsuleLayer_forward. cbn [num_routes route_weights num_iterations].
  destruct (Z.eqb_spec R (-1)) as [|_]; [lia|]. cbn [negb].
  cbn [index_N_s_s_N_s index_s_N_s_s_s rbind].
  assert (Hmat : matmul [1; b; R; 1; cin] [C; 1; R; cin; cout] = Ok [C; b; R; 1; cout]).
  { unfold matmul. run_sizes. }
  rewrite Hmat. cbn [rbind].
  rewrite routing_loop_sizes; try assumption.
  - reflexivity.
  - unfold range. destruct (Z.to_nat n) eqn:E; [lia | discriminate].
Qed.

Lemma routing_layer_output_size_witness :
  exists self, CapsuleLayer_init 10 1152 8 16 None None 3 = Ok self /\
               CapsuleLayer_forward self [8; 1152; 8] = Ok [10; 8; 1; 1; 16].
Proof.
  eexists. split; [reflexivity|].
  apply (routing_layer_output_size 10 1152 8 16 3 8 None None); try lia. reflexivity.
Defined.

(** X14: a routing layer raises on an input whose capsules do not have
    the [in_channels] entries its weights were built for. *)
Theorem routing_layer_rejects_other_width (C R cin cout n b c : Z) (k s : option Z)
    (self : CapsuleLayer) :
  R <> -1 -> c <> cin ->
  CapsuleLayer_init C R cin cout k s n = Ok self ->
  CapsuleLayer_forward self [b; R; c] = Raise RuntimeError.
Proof.
  intros HR Hc Hinit. unfold CapsuleLayer_init in Hinit.
  destruct (Z.eqb_spec R (-1)) as [|_]; [contradiction|]. cbn [negb] in Hinit.
  injection Hinit as <-. unfold CapsuleLayer_forward. cbn [num_routes route_weights].
  destruct (Z.eqb_spec R (-1)) as [|_]; [contradiction|]. cbn [negb].
  cbn [index_N_s_s_N_s index_s_N_s_s_s rbind]. unfold matmul. cbn [rev app].
  destruct (Z.eqb_spec c cin); [contradiction | reflexivity].
Qed.

Lemma routing_layer_rejects_other_width_witness :
  exists self, CapsuleLayer_init 10 1152 8 16 None None 3 = Ok self /\
               CapsuleLayer_forward self [8; 1152; 16] = Raise RuntimeError.
Proof.
  eexists. split; [reflexivity|].
  apply (routing_layer_rejects_other_width 10 1152 8 16 3 8 16 None None); try lia.
  reflexivity.
Defined.

(** ** Sizes in a layer of convolutions *)

Lemma size_eqb_refl (s : size) : size_eqb s s = true.
Proof. induction s as [|x s IH]; [reflexivity|]. simpl. now rewrite Z.eqb_refl, IH. Qed.

Lemma rmapM_constant {A B : Type} (f : A -> result B) (a : A) (r : B) (n : nat) :
  f a = Ok r -> rmapM f (repeat a n) = Ok (repeat r n).
Proof.
  intros Hf. induction n as [|n IH]; [reflexivity|].
  cbn [repeat rmapM]. now rewrite Hf, IH.
Qed.

Lemma map_constant {A B : Type} (b : B) (l : list A) :
  map (fun _ => b) l = repeat b (length l).
Proof. induction l as [|a l IH]; [reflexivity|]. simpl. now rewrite IH. Qed.

Lemma range_has_length (n : Z) : length (range n) = Z.to_nat n.
Proof. unfold range. now rewrite length_map, length_seq. Qed.

Lemma cat_last_fold (front : size) (n : nat) (a : Z) :
  fold_left (fun acc t =>
               (a <- acc ;;
                match rev t with
                | lt :: ft => if size_eqb ft (rev front) then Ok (a + lt) else Raise RuntimeError
                | [] => Raise RuntimeError
                end)%py)
            (repeat (front ++ [1]) n) (Ok a)
  = Ok (a + Z.of_nat n).
Proof.
  revert a. induction n as [|n IH]; intros a.
  - simpl. f_equal. lia.
  - cbn [repeat fold_left rbind]. rewrite rev_app_distr. cbn [rev app].
    rewrite size_eqb_refl, IH. f_equal. lia.
Qed.

(** Concatenating [n] tensors with a last axis of one gives a last axis of [n]. *)
Lemma cat_last_columns (front : size) (n : nat) :
  cat_last (repeat (front ++ [1]) (S n)) = Ok (front ++ [Z.of_nat (S n)]).
Proof.
  cbn [repeat]. unfold cat_last. rewrite rev_app_distr. cbn [rev app].
  rewrite cat_last_fold. cbn [rbind rev]. rewrite rev_involutive.
  do 2 f_equal. f_equal. lia.
Qed.

(** A layer whose [capsules] are [C] copies of one convolution. *)
Lemma convolution_capsules_size (self : CapsuleLayer) (C cin cout k s b h w : Z) :
  num_routes self = -1 ->
  capsules self = Some (repeat {| in_channels := cin; out_channels := cout;
                                  kernel_size := k; stride := s |} (Z.to_nat C)) ->
  1 <= C -> 1 <= b -> k <= h -> k <= w ->
  CapsuleLayer_forward self [b; cin; h; w]
  = Ok [b; cout * ((h - k) / s + 1) * ((w - k) / s + 1); C].
Proof.
  intros Hroutes Hcaps HC Hb Hh Hw. unfold CapsuleLayer_forward. rewrite Hroutes, Hcaps.
  change (negb (-1 =? -1)) with false. cbv iota.
  set (m := cout * ((h - k) / s + 1) * ((w - k) / s + 1)).
  rewrite (rmapM_constant _ _ [b; m; 1]).
  - cbn [rbind]. destruct (Z.to_nat C) as [|c'] eqn:EC; [lia|].
    change [b; m; 1] with ([b; m] ++ [1]).
    rewrite (cat_last_columns [b; m] c'). cbn [rbind].
    replace (Z.of_nat (S c')) with C by lia.
    apply squash_vector_last_axis.
  - unfold Conv2d_forward. cbn [in_channels out_channels kernel_size stride].
    rewrite Z.eqb_refl.
    destruct (Z.leb_spec k h); [|lia]. destruct (Z.leb_spec k w); [|lia].
    cbn [andb rbind]. unfold size_at.
    change 0 with (Z.of_nat 0) at 1. rewrite (wrap_dim_nonneg [b; cin; h; w] 0) by (simpl; lia).
    cbn [rbind nth].
    apply view_per_sample; [exact Hb | | now right].
    unfold numel, m. simpl. lia.
Qed.

(** X15: a layer built with -1 routes applies its [C] convolutions to a
    batch of [b] images with [cin] channels, flattens each result per
    sample and concatenates them on a new last axis: the result has size
    (b, cout * oh * ow, C) where oh and ow are the height and width a
    convolution with kernel [k] and stride [s] leaves. *)
Theorem convolution_layer_output_size (C cin cout k s n b h w : Z) (self : CapsuleLayer) :
  1 <= C -> 1 <= cout -> 1 <= k -> 1 <= s -> 1 <= b -> k <= h -> k <= w ->
  CapsuleLayer_init C (-1) cin cout (Some k) (Some s) n = Ok self ->
  CapsuleLayer_forward self [b; cin; h; w]
  = Ok [b; cout * ((h - k) / s + 1) * ((w - k) / s + 1); C].
Proof.
  intros HC Hcout Hk Hs Hb Hh Hw Hinit. unfold CapsuleLayer_init in Hinit.
  change (negb (-1 =? -1)) with false in Hinit. cbv iota in Hinit.
  injection Hinit as <-.
  apply convolution_capsules_size; try assumption; [reflexivity|].
  cbn [capsules]. now rewrite map_constant, range_has_length.
Qed.

Lemma convolution_layer_output_size_witness :
  exists self, CapsuleLayer_init 8 (-1) 256 32 (Some 9) (Some 2) 3 = Ok self /\
               CapsuleLayer_forward self [8; 256; 20; 20] = Ok [8; 32 * ((20 - 9) / 2 + 1) * ((20 - 9) / 2 + 1); 8].
Proof.
  eexists. split; [reflexivity|].
  apply (convolution_layer_output_size 8 256 32 9 2 3 8 20 20); try lia. reflexivity.
Defined.

(** ** Sizes in the loss *)

Lemma broadcast_scalar_r (s : size) : broadcast s [] = Ok s.
Proof.
  unfold broadcast. cbn [rev].
  replace (broadcast_rev (rev s) []) with (Ok (rev s) : result size)
    by (destruct (rev s); reflexivity).
  cbn [rbind]. now rewrite rev_involutive.
Qed.

Lemma MarginLoss_forward_size_rule (images s reconstructions : size) :
  images <> [] ->
  MarginLoss_forward images s s reconstructions
  = if numel reconstructions =? numel images then Ok [1] else Raise RuntimeError.
Proof.
  intros Hne. unfold MarginLoss_forward.
  repeat (rewrite ?broadcast_scalar, ?broadcast_scalar_r, ?broadcast_same; cbn [rbind]).
  unfold mse_loss. destruct (numel reconstructions =? numel images); [|reflexivity].
  repeat (rewrite ?broadcast_scalar, ?broadcast_same; cbn [rbind]).
  destruct images as [|a rest]; [contradiction|].
  unfold size_at. change 0 with (Z.of_nat 0) at 1.
  rewrite (wrap_dim_nonneg (a :: rest) 0) by (simpl; lia). reflexivity.
Qed.

(** X16: with labels and class scores of one size, the loss is a single
    number when the reconstructions hold as many elements as the images,
    and raises otherwise; the images are not reshaped first. *)
Theorem MarginLoss_forward_needs_equal_counts (images s reconstructions : size) :
  images <> [] ->
  MarginLoss_forward images s s reconstructions
  = if numel reconstructions =? numel images then Ok [1] else Raise RuntimeError.
Proof. apply MarginLoss_forward_size_rule. Qed.

Lemma MarginLoss_forward_needs_equal_counts_witness :
  MarginLoss_forward [8; 1; 28; 28] [8; 10] [8; 10] [5; 784]
  = if numel [5; 784] =? numel [8; 1; 28; 28] then Ok [1] else Raise RuntimeError.
Proof.
  apply (MarginLoss_forward_needs_equal_counts [8; 1; 28; 28] [8; 10] [5; 784]). discriminate.
Defined.

(** ** Sizes through the network *)

Lemma conv1_size (self : CapsuleNet) (b c h w : Z) :
  CapsuleNet_init = Ok self ->
  Conv2d_forward (conv1 self) [b; c; h; w]
  = if (c =? 1) && (9 <=? h) && (9 <=? w)
    then Ok [b; 256; h - 8; w - 8] else Raise RuntimeError.
Proof.
  intros Hinit. injection Hinit as <-. unfold Conv2d_forward.
  cbn [conv1 in_channels out_channels kernel_size stride].
  destruct ((c =? 1) && (9 <=? h) && (9 <=? w)); [|reflexivity].
  rewrite !Z.div_1_r. do 4 f_equal; [lia | f_equal; lia].
Qed.

Lemma primary_capsules_output_size (self : CapsuleNet) (b h w : Z) :
  CapsuleNet_init = Ok self -> 1 <= b -> 9 <= h -> 9 <= w ->
  CapsuleLayer_forward (primary_capsules self) [b; 256; h; w]
  = Ok [b; 32 * ((h - 9) / 2 + 1) * ((w - 9) / 2 + 1); 8].
Proof.
  intros Hinit Hb Hh Hw. injection Hinit as <-.
  apply convolution_capsules_size; try assumption; try lia; reflexivity.
Qed.

Lemma primary_capsules_rejects_small (self : CapsuleNet) (b h w : Z) :
  CapsuleNet_init = Ok self -> h < 9 \/ w < 9 ->
  CapsuleLayer_forward (primary_capsules self) [b; 256; h; w] = Raise RuntimeError.
Proof.
  intros Hinit Hsmall. injection Hinit as <-.
  unfold CapsuleLayer_forward. cbn [primary_capsules num_routes capsules].
  change (negb (-1 =? -1)) with false. cbv iota.
  change (range 8) with [0; 1; 2; 3; 4; 5; 6; 7]. cbn [map rmapM].
  unfold Conv2d_forward. cbn [in_channels kernel_size].
  rewrite Z.eqb_refl.
  destruct (Z.leb_spec 9 h); destruct (Z.leb_spec 9 w); try lia; reflexivity.
Qed.

Lemma digit_capsules_rejects_other_routes (self : CapsuleNet) (b m : Z) :
  CapsuleNet_init = Ok self -> m <> 1152 -> m <> 1 ->
  CapsuleLayer_forward (digit_capsules self) [b; m; 8] = Raise RuntimeError.
Proof.
  intros Hinit Hm Hm1. injection Hinit as <-.
  unfold CapsuleLayer_forward. cbn [digit_capsules num_routes route_weights].
  change (negb (32 * 6 * 6 =? -1)) with true. cbv iota.
  cbn [index_N_s_s_N_s index_s_N_s_s_s rbind]. unfold matmul. cbn [rev app].
  rewrite Z.eqb_refl. cbn [broadcast_rev rbind].
  change (32 * 6 * 6) with 1152.
  destruct (Z.eqb_spec 1 10); [lia|]. rewrite Z.eqb_refl.
  destruct (b =? 1); cbn [rbind];
    destruct (Z.eqb_spec m 1152); try contradiction;
    destruct (Z.eqb_spec m 1); try contradiction; reflexivity.
Qed.

(** X17: whenever [forward] returns, in either calling mode, the images
    have one channel and are large enough for both convolutions, and the
    primary capsules cover 36 cells, as for images of 28 by 28: the
    number of routes is fixed to 32 * 6 * 6 when the network is built. *)
Theorem forward_accepts_only_36_cells (b c h w : Z) (y : option size) (r : size * size) :
  1 <= b -> model [b; c; h; w] y = Ok r ->
  c = 1 /\ 17 <= h /\ 17 <= w /\ ((h - 17) / 2 + 1) * ((w - 17) / 2 + 1) = 36.
Proof.
  intros Hb. unfold model.
  destruct CapsuleNet_init as [self|e] eqn:Hinit; [|discriminate].
  cbn [rbind]. unfold CapsuleNet_forward.
  rewrite (conv1_size self b c h w Hinit).
  destruct (Z.eqb_spec c 1) as [Hc|]; [|discriminate].
  destruct (Z.leb_spec 9 h); [|discriminate].
  destruct (Z.leb_spec 9 w); [|discriminate].
  cbn [andb rbind].
  destruct (Z_lt_le_dec (h - 8) 9) as [Hh|Hh].
  { rewrite (primary_capsules_rejects_small self b _ _ Hinit) by (left; exact Hh). discriminate. }
  destruct (Z_lt_le_dec (w - 8) 9) as [Hw|Hw].
  { rewrite (primary_capsules_rejects_small self b _ _ Hinit) by (right; exact Hw). discriminate. }
  rewrite (primary_capsules_output_size self b (h - 8) (w - 8) Hinit) by lia.
  cbn [rbind].
  replace (h - 8 - 9) with (h - 17) by lia. replace (w - 8 - 9) with (w - 17) by lia.
  set (oh := (h - 17) / 2 + 1). set (ow := (w - 17) / 2 + 1).
  assert (Hoh : 1 <= oh) by (unfold oh; pose proof (Z.div_pos (h - 17) 2); lia).
  assert (How : 1 <= ow) by (unfold ow; pose proof (Z.div_pos (w - 17) 2); lia).
  destruct (Z.eq_dec (oh * ow) 36) as [Heq|Hne].
  { intros _. repeat split; try lia. }
  rewrite (digit_capsules_rejects_other_routes self b _ Hinit); [discriminate | nia | nia].
Qed.

Lemma forward_accepts_only_36_cells_witness :
  1 = 1 /\ 17 <= 28 /\ 17 <= 28 /\ ((28 - 17) / 2 + 1) * ((28 - 17) / 2 + 1) = 36.
Proof.
  apply (forward_accepts_only_36_cells 2 1 28 28 (Some [2; 10]) ([2; 10], [2; 784])).
  - lia.
  - vm_compute. reflexivity.
Defined.

Lemma forward_after_primary_capsules (self : CapsuleNet) (b h w : Z) (y : option size) :
  CapsuleNet_init = Ok self -> 1 <= b -> 17 <= h -> 17 <= w ->
  ((h - 17) / 2 + 1) * ((w - 17) / 2 + 1) = 36 ->
  CapsuleNet_forward self [b; 1; h; w] y = CapsuleNet_forward self [b; 1; 28; 28] y.
Proof.
  intros Hinit Hb Hh Hw Hcells. unfold CapsuleNet_forward.
  rewrite !(conv1_size self b 1 _ _ Hinit).
  destruct (Z.leb_spec 9 h); [|lia]. destruct (Z.leb_spec 9 w); [|lia].
  rewrite Z.eqb_refl. change (9 <=? 28) with true. cbn [andb rbind].
  rewrite (primary_capsules_output_size self b (h - 8) (w - 8) Hinit) by lia.
  rewrite (primary_capsules_output_size self b (28 - 8) (28 - 8) Hinit) by lia.
  replace (h - 8 - 9) with (h - 17) by lia. replace (w - 8 - 9) with (w - 17) by lia.
  rewrite <- Z.mul_assoc, Hcells. reflexivity.
Qed.

(** X18: on a batch of at least two one-channel images whose primary
    capsules cover 36 cells, [forward] returns class scores of size
    (b, 10) and reconstructions of size (b, 784), with and without labels. *)
Theorem forward_sizes_of_a_batch (b h w : Z) :
  2 <= b -> 17 <= h -> 17 <= w -> ((h - 17) / 2 + 1) * ((w - 17) / 2 + 1) = 36 ->
  model [b; 1; h; w] (Some [b; 10]) = Ok ([b; 10], [b; 784])
  /\ model [b; 1; h; w] None = Ok ([b; 10], [b; 784]).
Proof.
  intros Hb Hh Hw Hcells.
  destruct (CapsuleNet_forward_sizes b Hb) as [Hsome Hnone].
  unfold model in *.
  destruct CapsuleNet_init as [self|e] eqn:Hinit; [|discriminate].
  cbn [rbind] in *.
  rewrite !(forward_after_primary_capsules self b h w _ Hinit) by lia.
  split; assumption.
Qed.

Lemma forward_sizes_of_a_batch_witness :
  model [8; 1; 28; 28] (Some [8; 10]) = Ok ([8; 10], [8; 784])
  /\ model [8; 1; 28; 28] None = Ok ([8; 10], [8; 784]).
Proof.
  apply (forward_sizes_of_a_batch 8 28 28); try lia. reflexivity.
Defined.

End SizeRules.

(** * Further properties: the script *)

Section ScriptRuns.
Local Open Scope Z_scope.
Import Script.
Local Open Scope script_scope.

Ltac emits_steps :=
  repeat first
    [ apply emits_bind; [|intros ?]
    | apply emits_for_each; intros ?
    | apply emits_ret
    | apply emits_lift
    | apply emits_load
    | apply emits_set_reconstructions
    | apply emits_set_correct
    | apply emits_set_test_loss
    | apply emits_emit ].

(** ** The epochs *)

Lemma epoch_body_raises (P : event -> Prop) (model : Sz.CapsuleNet) (n_train n_test : Z) :
  (forall ev, ev <> PrintTest -> ev <> TrainMode -> file_system ev = false -> P ev) ->
  raises_after P
    (for_each (enumerate (batch_sizes n_train 8)) (train_batch model) ;;
     for_each (enumerate (batch_sizes n_test 8)) (test_batch model) ;;
     old <- load test_loss ;;
     n <- lift (py_len [PyDataset n_test]) ;;
     avg <- lift (py_div old n) ;;
     set_test_loss avg ;;
     _ <- lift (py_data avg) ;;
     c <- load correct ;;
     n <- lift (py_len [PyDataset n_test]) ;;
     pct <- lift (py_div c n) ;;
     _ <- lift (py_len [PyDataset n_test; pct]) ;;
     emit PrintTest).
Proof.
  intros HP.
  apply raises_later.
  { apply emits_for_each. intros it. unfold train_batch.
    emits_steps; apply HP; try discriminate; reflexivity. }
  intros _. apply raises_later.
  { apply emits_for_each. intros it. unfold test_batch.
    emits_steps; apply HP; try discriminate; reflexivity. }
  intros _. do 8 (apply raises_later; [emits_steps | intros ?]).
  apply raises_at_once.
Qed.

Lemma count_app (p : event -> bool) (l1 l2 : list event) :
  count p (l1 ++ l2) = (count p l1 + count p l2)%nat.
Proof. unfold count. now rewrite filter_app, length_app. Qed.

Lemma count_none (p : event -> bool) (l : list event) :
  Forall (fun e => p e = false) l -> count p l = 0%nat.
Proof. intros H. unfold count. now rewrite (filter_none p l H). Qed.

(** X19: on datasets that are not empty the script calls [model.train()]
    exactly once: the first epoch raises, so no second epoch starts. *)
Theorem train_mode_entered_once (n_train n_test : Z) :
  1 <= n_train -> 1 <= n_test ->
  count is_train_mode (snd (run n_train n_test)) = 1%nat.
Proof.
  intros _ _. unfold run. cbn [snd].
  destruct (script_after_setup n_train n_test) as [model [_ ->]].
  change (range 10) with (0 :: map Z.of_nat (seq 1 9)). cbn [for_each].
  set (P := fun e => is_train_mode e = false).
  set (g1 := {| reconstructions := None; correct := None; test_loss := None;
                log := TrainMode :: setup_log |}).
  pose proof (epoch_body_raises P model n_train n_test) as Hbody.
  assert (HP : forall ev, ev <> PrintTest -> ev <> TrainMode -> file_system ev = false -> P ev).
  { intros ev _ Hev _. unfold P. destruct ev; try reflexivity. contradiction. }
  specialize (Hbody HP g1). destruct Hbody as [[e He] [evs [Hlog Hall]]].
  match type of He with fst (?body g1) = _ =>
    change (bind (epoch model n_train n_test 0)
                 (fun _ => for_each (map Z.of_nat (seq 1 9)) (epoch model n_train n_test))
                 {| reconstructions := None; correct := None; test_loss := None;
                    log := setup_log |})
      with (match body g1 with
            | (Ok a, g') => for_each (map Z.of_nat (seq 1 9)) (epoch model n_train n_test) g'
            | (Raise e, g') => (Raise e, g')
            end);
    destruct (body g1) as [[u|e'] g2]
  end.
  - discriminate.
  - cbn [snd] in *. unfold trace. rewrite rev_append_rev, app_nil_r, Hlog.
    subst g1. cbn [log]. rewrite rev_app_distr. cbn [rev]. rewrite <- !app_assoc.
    rewrite !count_app. rewrite (count_none _ (rev evs)) by (apply Forall_rev, Hall).
    reflexivity.
Qed.

Lemma train_mode_entered_once_witness :
  count is_train_mode (snd (run 16 8)) = 1%nat.
Proof.
  apply (train_mode_entered_once 16 8); lia.
Defined.

(** ** Runs on datasets of other sizes *)

Local Abbreviation batch_events := (fun it : Z * Z => train_batch_events (fst it) (snd it)).

Lemma for_each_app {A : Type} (l1 l2 : list A) (body : A -> M unit) (g : globals) :
  for_each (l1 ++ l2) body g = (for_each l1 body ;; for_each l2 body) g.
Proof.
  revert g. induction l1 as [|a l1 IH]; intros g; [reflexivity|].
  cbn [app for_each]. unfold bind.
  destruct (body a g) as [[u|e] g']; [|reflexivity].
  rewrite IH. reflexivity.
Qed.

Lemma combine_snoc (s : nat) (l : list Z) (a : Z) :
  combine (map Z.of_nat (seq s (length (l ++ [a])))) (l ++ [a])
  = combine (map Z.of_nat (seq s (length l))) l ++ [(Z.of_nat (s + length l), a)].
Proof.
  revert s. induction l as [|x l IH]; intros s.
  - simpl. now rewrite Nat.add_0_r.
  - cbn [app length seq map combine]. rewrite IH. cbn [app].
    replace (s + S (length l))%nat with (S s + length l)%nat by lia. reflexivity.
Qed.

Lemma enumerate_snoc (l : list Z) (a : Z) :
  enumerate (l ++ [a]) = enumerate l ++ [(Z.of_nat (length l), a)].
Proof.
  unfold enumerate, range. rewrite !Nat2Z.id. apply (combine_snoc 0).
Qed.

Lemma batch_sizes_rest (k r : Z) :
  0 <= k -> 1 <= r <= 7 -> batch_sizes (8 * k + r) 8 = repeat 8 (Z.to_nat k) ++ [r].
Proof.
  intros Hk Hr. unfold batch_sizes.
  replace ((8 * k + r) / 8) with k by (apply (Z.div_unique _ 8 k r); lia).
  replace ((8 * k + r) mod 8) with r by (apply (Z.mod_unique _ 8 k r); lia).
  destruct (Z.eqb_spec r 0); [lia | reflexivity].
Qed.

Lemma batch_sizes_first (n : Z) :
  8 <= n -> exists rest, batch_sizes n 8 = 8 :: rest.
Proof.
  intros Hn. unfold batch_sizes.
  assert (1 <= n / 8) by (apply Z.div_le_lower_bound; lia).
  destruct (Z.to_nat (n / 8)) as [|m] eqn:E; [lia|]. cbn [repeat app]. eauto.
Qed.

Lemma full_batches (k : nat) (it : Z * Z) :
  In it (enumerate (repeat 8 k)) -> snd it = 8.
Proof. intros Hin. apply enumerate_snd in Hin. now apply repeat_spec in Hin. Qed.

(** The training batches of a pass all run when none is a single image. *)
Lemma train_batches_log (model : Sz.CapsuleNet) (items : list (Z * Z)) (g : globals) :
  Sz.CapsuleNet_init = Ok model -> Forall (fun it => 2 <= snd it) items ->
  exists g', for_each items (train_batch model) g = (Ok tt, g')
             /\ log g' = rev (flat_map batch_events items) ++ log g.
Proof.
  intros Hinit Hall. revert g. induction Hall as [|[idx b] items Hb _ IH]; intros g.
  - exists g. split; reflexivity.
  - cbn [snd] in Hb. cbn [for_each]. unfold bind.
    rewrite (train_batch_run model idx b g Hinit Hb).
    destruct (IH {| reconstructions := Some [b; 784]; correct := Some (PyInt 0);
                    test_loss := Some (PyInt 0);
                    log := rev (train_batch_events idx b) ++ log g |}) as [g' [Hrun Hlog]].
    exists g'. split; [exact Hrun|]. rewrite Hlog. cbn [log flat_map fst snd].
    rewrite rev_app_distr, <- app_assoc. reflexivity.
Qed.

(** A training batch of one image raises in the forward pass. *)
Lemma train_batch_single (model : Sz.CapsuleNet) (idx : Z) (g : globals) :
  Sz.CapsuleNet_init = Ok model ->
  train_batch model (idx, 1) g
  = (Raise RuntimeError,
     {| reconstructions := reconstructions g; correct := correct g;
        test_loss := test_loss g; log := ZeroGrad :: Progress :: log g |}).
Proof.
  intros Hinit. injection Hinit as <-. reflexivity.
Qed.

(** The first test batch after a pass whose last training batch had
    another number of images: the loss reads the reconstructions of that
    training batch. *)
Lemma test_batch_stale (model : Sz.CapsuleNet) (idx r : Z) (c : option pyval) (l : list event) :
  Sz.CapsuleNet_init = Ok model -> r <> 8 ->
  test_batch model (idx, 8)
    {| reconstructions := Some [r; 784]; correct := c;
       test_loss := Some (PyInt 0); log := l |}
  = (Raise RuntimeError,
     {| reconstructions := Some [r; 784]; correct := c;
        test_loss := Some (PyInt 0);
        log := Forward [8; 1; 28; 28] [8; 10] :: l |}).
Proof.
  intros Hinit Hr. unfold test_batch. cbn [fst snd].
  change (Sz.index_to_one_hot [8] 10) with (Ok [8; 10] : result Sz.size).
  unfold bind, emit, lift, load. cbn [reconstructions correct test_loss log].
  rewrite (CapsuleNet_forward_sizes_given model 8 Hinit) by lia. cbn [fst snd].
  rewrite MarginLoss_forward_size_rule by discriminate.
  destruct (Z.eqb_spec (Sz.numel [r; 784]) (Sz.numel [8; 1; 28; 28])) as [Heq|_];
    [|reflexivity].
  unfold Sz.numel in Heq. simpl in Heq. lia.
Qed.

Local Abbreviation setup_state :=
  {| reconstructions := None; correct := None; test_loss := None; log := setup_log |}.

(** The script stops with the exception of its first epoch. *)
Lemma run_of_first_epoch (n_train n_test : Z) (e : exn) (l : list event) :
  (forall model, Sz.CapsuleNet_init = Ok model ->
     exists g', epoch model n_train n_test 0 setup_state = (Raise e, g') /\ log g' = l) ->
  run n_train n_test = (Raise e, rev l).
Proof.
  intros Hepoch. unfold run.
  destruct (script_after_setup n_train n_test) as [model [Hinit ->]].
  destruct (Hepoch model Hinit) as [g' [Hrun Hlog]].
  change (range 10) with (0 :: map Z.of_nat (seq 1 9)). cbn [for_each].
  rewrite (bind_raise _ _ _ _ _ Hrun). cbn [fst snd].
  unfold trace. rewrite rev_append_rev, app_nil_r, Hlog. reflexivity.
Qed.

Lemma rev_setup_log :
  rev setup_log = [ToDevice; Download "/tmp" true; Download "/tmp" false].
Proof. reflexivity. Qed.

Lemma training_pass (model : Sz.CapsuleNet) (n_train n_test e : Z) (g g' : globals)
    (r : result unit) :
  (for_each (enumerate (batch_sizes n_train 8)) (train_batch model) ;;
   for_each (enumerate (batch_sizes n_test 8)) (test_batch model) ;;
   old <- load test_loss ;;
   n <- lift (py_len [PyDataset n_test]) ;;
   avg <- lift (py_div old n) ;;
   set_test_loss avg ;;
   _ <- lift (py_data avg) ;;
   c <- load correct ;;
   n <- lift (py_len [PyDataset n_test]) ;;
   pct <- lift (py_div c n) ;;
   _ <- lift (py_len [PyDataset n_test; pct]) ;;
   emit PrintTest)
    {| reconstructions := reconstructions g; correct := correct g;
       test_loss := test_loss g; log := TrainMode :: log g |} = (r, g') ->
  epoch model n_train n_test e g = (r, g').
Proof. intros H. exact H. Qed.

(** X20: with [8 * k] training images and at least 8 test images the
    script runs its [k] training batches once, in order, then the forward
    pass and the loss of the first test batch, and raises there: the
    one-hot target cannot be viewed with the size of the predictions. *)
Theorem run_on_full_batches (k n_test : Z) :
  1 <= k -> 8 <= n_test ->
  run (8 * k) n_test
  = (Raise RuntimeError,
     [ToDevice; Download "/tmp" true; Download "/tmp" false; TrainMode]
     ++ flat_map (fun it => train_batch_events (fst it) (snd it))
                 (enumerate (repeat 8 (Z.to_nat k)))
     ++ [Forward [8; 1; 28; 28] [8; 10]; Loss]).
Proof.
  intros Hk Hn.
  rewrite (run_of_first_epoch (8 * k) n_test RuntimeError
             (Loss :: Forward [8; 1; 28; 28] [8; 10]
              :: rev (flat_map batch_events (enumerate (repeat 8 (Z.to_nat k))))
              ++ TrainMode :: setup_log)).
  - f_equal. cbn [rev]. rewrite rev_app_distr. cbn [rev].
    rewrite rev_involutive, rev_setup_log, <- !app_assoc. reflexivity.
  - intros model Hinit. eexists. split.
    + apply training_pass. cbn [reconstructions correct test_loss log].
      rewrite batch_sizes_full by lia.
      erewrite bind_ok.
      2:{ apply (train_loop_run model 8); [exact Hinit | lia | |].
          - apply Forall_forall. intros it. apply full_batches.
          - destruct (Z.to_nat k) as [|m] eqn:E; [lia|]. cbn [repeat].
            destruct (enumerate_cons 8 (repeat 8 m)) as [rest ->]. discriminate. }
      apply bind_raise.
      destruct (batch_sizes_first n_test Hn) as [rest ->].
      destruct (enumerate_cons 8 rest) as [rest' ->].
      cbn [for_each]. apply bind_raise.
      rewrite (test_batch_run model 0 8 _ Hinit) by lia. reflexivity.
    + reflexivity.
Qed.

Lemma run_on_full_batches_witness :
  run (8 * 2) 8
  = (Raise RuntimeError,
     [ToDevice; Download "/tmp" true; Download "/tmp" false; TrainMode]
     ++ flat_map (fun it => train_batch_events (fst it) (snd it))
                 (enumerate (repeat 8 (Z.to_nat 2)))
     ++ [Forward [8; 1; 28; 28] [8; 10]; Loss]).
Proof.
  apply (run_on_full_batches 2 8); lia.
Defined.

(** X21: with [8 * k + 1] training images the last training batch holds
    one image; the script runs the [k] full batches and raises in the
    forward pass of the last one, after the gradients were zeroed: no
    test batch is reached. *)
Theorem run_with_single_image_batch (k n_test : Z) :
  0 <= k -> 1 <= n_test ->
  run (8 * k + 1) n_test
  = (Raise RuntimeError,
     [ToDevice; Download "/tmp" true; Download "/tmp" false; TrainMode]
     ++ flat_map (fun it => train_batch_events (fst it) (snd it))
                 (enumerate (repeat 8 (Z.to_nat k)))
     ++ [Progress; ZeroGrad]).
Proof.
  intros Hk _.
  rewrite (run_of_first_epoch (8 * k + 1) n_test RuntimeError
             (ZeroGrad :: Progress
              :: rev (flat_map batch_events (enumerate (repeat 8 (Z.to_nat k))))
              ++ TrainMode :: setup_log)).
  - f_equal. cbn [rev]. rewrite rev_app_distr. cbn [rev].
    rewrite rev_involutive, rev_setup_log, <- !app_assoc. reflexivity.
  - intros model Hinit.
    destruct (train_batches_log model (enumerate (repeat 8 (Z.to_nat k)))
                {| reconstructions := None; correct := None; test_loss := None;
                   log := TrainMode :: setup_log |} Hinit) as [g' [Hrun Hlog]].
    { apply Forall_forall. intros it Hin. rewrite (full_batches _ it Hin). lia. }
    exists {| reconstructions := reconstructions g'; correct := correct g';
              test_loss := test_loss g'; log := ZeroGrad :: Progress :: log g' |}.
    split.
    + apply training_pass. cbn [reconstructions correct test_loss log].
      rewrite batch_sizes_rest by lia. rewrite enumerate_snoc.
      apply bind_raise. rewrite for_each_app.
      rewrite (bind_ok _ _ _ _ _ Hrun). cbn [for_each].
      apply bind_raise. apply train_batch_single, Hinit.
    + cbn [log]. rewrite Hlog. reflexivity.
Qed.

Lemma run_with_single_image_batch_witness :
  run (8 * 1 + 1) 8
  = (Raise RuntimeError,
     [ToDevice; Download "/tmp" true; Download "/tmp" false; TrainMode]
     ++ flat_map (fun it => train_batch_events (fst it) (snd it))
                 (enumerate (repeat 8 (Z.to_nat 1)))
     ++ [Progress; ZeroGrad]).
Proof.
  apply (run_with_single_image_batch 1 8); lia.
Defined.

(** X22: with [8 * k + r] training images, [r] from 2 to 7, and at least
    8 test images, all training batches run; the first test batch raises
    after its forward pass and before its loss, which is computed from
    [reconstructions], still bound to the [r] reconstructions of the last
    training batch, and the 8 test images. *)
Theorem run_with_smaller_last_batch (k r n_test : Z) :
  0 <= k -> 2 <= r <= 7 -> 8 <= n_test ->
  run (8 * k + r) n_test
  = (Raise RuntimeError,
     [ToDevice; Download "/tmp" true; Download "/tmp" false; TrainMode]
     ++ flat_map (fun it => train_batch_events (fst it) (snd it))
                 (enumerate (batch_sizes (8 * k + r) 8))
     ++ [Forward [8; 1; 28; 28] [8; 10]]).
Proof.
  intros Hk Hr Hn.
  rewrite (run_of_first_epoch (8 * k + r) n_test RuntimeError
             (Forward [8; 1; 28; 28] [8; 10]
              :: rev (flat_map batch_events (enumerate (batch_sizes (8 * k + r) 8)))
              ++ TrainMode :: setup_log)).
  - f_equal. cbn [rev]. rewrite rev_app_distr. cbn [rev].
    rewrite rev_involutive, rev_setup_log, <- !app_assoc. reflexivity.
  - intros model Hinit.
    rewrite batch_sizes_rest by lia. rewrite enumerate_snoc.
    set (full := enumerate (repeat 8 (Z.to_nat k))).
    set (idx := Z.of_nat (length (repeat 8 (Z.to_nat k)))).
    destruct (train_batches_log model full
                {| reconstructions := None; correct := None; test_loss := None;
                   log := TrainMode :: setup_log |} Hinit) as [g' [Hrun Hlog]].
    { apply Forall_forall. intros it Hin. rewrite (full_batches _ it Hin). lia. }
    eexists. split.
    + apply training_pass. cbn [reconstructions correct test_loss log].
      rewrite batch_sizes_rest by lia. rewrite enumerate_snoc. fold full idx.
      erewrite bind_ok.
      2:{ rewrite for_each_app. rewrite (bind_ok _ _ _ _ _ Hrun). cbn [for_each].
          erewrite bind_ok by (apply (train_batch_run model idx r g' Hinit); lia).
          reflexivity. }
      apply bind_raise.
      destruct (batch_sizes_first n_test Hn) as [rest ->].
      destruct (enumerate_cons 8 rest) as [rest' ->].
      cbn [for_each]. apply bind_raise.
      apply test_batch_stale; [exact Hinit | lia].
    + cbn [log]. rewrite Hlog, flat_map_app, rev_app_distr. cbn [flat_map fst snd].
      rewrite app_nil_r, <- app_assoc. reflexivity.
Qed.

Lemma run_with_smaller_last_batch_witness :
  run (8 * 1 + 3) 8
  = (Raise RuntimeError,
     [ToDevice; Download "/tmp" true; Download "/tmp" false; TrainMode]
     ++ flat_map (fun it => train_batch_events (fst it) (snd it))
                 (enumerate (batch_sizes (8 * 1 + 3) 8))
     ++ [Forward [8; 1; 28; 28] [8; 10]]).
Proof.
  apply (run_with_smaller_last_batch 1 3 8); lia.
Defined.

End ScriptRuns.
